(** * RAMCloud packet drivers: the Driver contract and the DPDK backend

    A shallow embedding of [Driver.h] (the abstract driver, the [Received]
    envelope and its ownership protocol) and of [DpdkDriver.cc] (the
    kernel-bypass backend: constructor, [receivePackets], [release],
    [sendPacket], [getTransmitQueueSpace]).

    C++ methods become functions that pass the object state explicitly.
    A call may finish normally, throw a C++ exception, or stop the process
    (a failed [assert], a copy outside a buffer);
    the [outcome] type keeps the three apart.  DPDK itself ([rte_*]) is an
    external library: the model keeps only the state those calls expose to
    the driver (the mbuf pool, the NIC rings, the loopback ring). *)

From Stdlib Require Import ZArith QArith Qround Qminmax Lqa Lia.
From Stdlib.Strings Require Import Byte Ascii String.
From stdpp Require Import base option list gmap strings pretty.

Local Open Scope Z_scope.

#[global] Instance byte_eq_decision : EqDecision byte := Byte.byte_eq_dec.

(** ** Machine integers *)

Definition wrap32 (z : Z) : Z := z mod 2 ^ 32.

(** Conversion of a [uint32_t] bit pattern to [int] (two's complement). *)
Definition to_int32 (z : Z) : Z :=
  let u := wrap32 z in if decide (u < 2 ^ 31) then u else u - 2 ^ 32.

(** ** Results of a call *)

Inductive Exception : Type :=
| NoSuchKeyException (key : string)
| BadValueException (key : string)
| DriverException (msg : string).

Inductive StopReason : Type :=
| AssertionFailed
| MemoryFault.

Inductive outcome (A : Type) : Type :=
| Ok (a : A)
| Throw (e : Exception)
| Halt (s : StopReason).

Arguments Ok {A} a.
Arguments Throw {A} e.
Arguments Halt {A} s.

Definition obind {A B} (m : outcome A) (k : A -> outcome B) : outcome B :=
  match m with
  | Ok a => k a
  | Throw e => Throw e
  | Halt s => Halt s
  end.

Notation "'let*' x := m 'in' k" := (obind m (fun x => k))
  (at level 10, x pattern, m at level 100, k at level 200).

(** C's [assert(c)]. *)
Definition assert (c : bool) : outcome unit :=
  if c then Ok tt else Halt AssertionFailed.

(** [try { body } catch (NoSuchKeyException&) { handler }] *)
Definition catchNoSuchKey {A} (body : outcome A) (handler : outcome A)
  : outcome A :=
  match body with
  | Throw (NoSuchKeyException _) => handler
  | r => r
  end.

Definition is_throw {A} (r : outcome A) : bool :=
  match r with Throw _ => true | _ => false end.

(** The kind of an exception, as a [catch] clause or a test on the
    exception type sees it: the message text plays no part. *)
Inductive ExceptionKind : Type := MissingOption | MalformedOption | DriverFailure.

Definition kindOf (e : Exception) : ExceptionKind :=
  match e with
  | NoSuchKeyException _ => MissingOption
  | BadValueException _ => MalformedOption
  | DriverException _ => DriverFailure
  end.

(** ** Service locators *)

Module ServiceLocator.

(** Modelled from the spec: [ServiceLocator] (ServiceLocator.h is not
    part of the sources).  The driver consumes a locator "as parsed
    key/value option queries"; a lookup of an absent key is a
    [NoSuchKeyException], a value that does not parse at the requested
    type is a [BadValueException]. *)
Record t : Type := mk {
  originalString : string;
  options : gmap string string
}.

Definition getOriginalString (sl : t) : string := originalString sl.

Definition getOption (sl : t) (key : string) : outcome string :=
  match options sl !! key with
  | Some v => Ok v
  | None => Throw (NoSuchKeyException key)
  end.

Definition digit (c : ascii) : option Z :=
  let n := Z.of_nat (nat_of_ascii c) in
  if decide (48 <= n <= 57) then Some (n - 48) else None.

Fixpoint digits (acc : Z) (s : string) : option Z :=
  match s with
  | EmptyString => Some acc
  | String c s' =>
      match digit c with
      | Some d => digits (10 * acc + d) s'
      | None => None
      end
  end.

(** A decimal integer: an optional sign and at least one digit. *)
Definition parseInt (s : string) : option Z :=
  match s with
  | EmptyString => None
  | String "-"%char EmptyString => None
  | String "-"%char s' => Z.opp <$> digits 0 s'
  | _ => digits 0 s
  end.

Definition getOptionInt (sl : t) (key : string) : outcome Z :=
  let* v := getOption sl key in
  match parseInt v with
  | Some n => Ok n
  | None => Throw (BadValueException key)
  end.

End ServiceLocator.

(** ** The transmit queue estimator *)

Module QueueEstimator.

Local Open Scope Q_scope.

(** Modelled from the spec: [QueueEstimator] (QueueEstimator.h is not
    part of the sources).  State: the configured bandwidth in bytes per
    time unit, the time of the last update and the backlog at that time.
    [getQueueSize now] "computes backlog minus (now - lastTime) *
    bandwidth, floored at zero, and updates the internal time/backlog
    baseline"; [packetQueued bytes now] brings the backlog up to [now] and
    adds [bytes].  The size is reported in whole bytes. *)
Record t : Type := mk {
  bandwidth : Q;
  currentTime : Z;
  queueSize : Q
}.

Definition drained (e : t) (now : Z) : Q :=
  let newSize := queueSize e - inject_Z (now - currentTime e) * bandwidth e in
  if Qlt_le_dec newSize 0 then 0 else newSize.

Definition advance (e : t) (now : Z) : t :=
  {| bandwidth := bandwidth e;
     currentTime := now;
     queueSize := drained e now |}.

Definition getQueueSize (e : t) (now : Z) : t * Z :=
  let e' := advance e now in (e', Qfloor (queueSize e')).

Definition packetQueued (e : t) (length : Z) (transmitTime : Z) : t :=
  let e' := advance e transmitTime in
  {| bandwidth := bandwidth e';
     currentTime := currentTime e';
     queueSize := queueSize e' + inject_Z length |}.

(** [mBitsPerSecond] megabits per second, as bytes per clock tick. *)
Definition setBandwidth (e : t) (mBitsPerSecond : Z) (cyclesPerSec : Z) : t :=
  {| bandwidth := inject_Z mBitsPerSecond * 1000000 / 8 / inject_Z cyclesPerSec;
     currentTime := currentTime e;
     queueSize := queueSize e |}.

Definition create (mBitsPerSecond : Z) (cyclesPerSec : Z) : t :=
  setBandwidth {| bandwidth := 0; currentTime := 0; queueSize := 0 |}
    mBitsPerSecond cyclesPerSec.

(** The operations a transport performs on an estimator. *)
Inductive op : Type :=
| Queued (bytes : Z) (now : Z)
| Query (now : Z).

Definition opTime (o : op) : Z :=
  match o with Queued _ t => t | Query t => t end.

Definition opBytes (o : op) : Z :=
  match o with Queued b _ => b | Query _ => 0%Z end.

Definition step (e : t) (o : op) : t :=
  match o with
  | Queued b now => packetQueued e b now
  | Query now => fst (getQueueSize e now)
  end.

Definition run (e : t) (ops : list op) : t := fold_left step ops e.

(** Total number of bytes handed to [packetQueued]. *)
Definition totalQueued (ops : list op) : Z :=
  foldr (fun o acc => (opBytes o + acc)%Z) 0%Z ops.

(** Time never runs backwards along the operations, starting at [t]. *)
Fixpoint chronological (t : Z) (ops : list op) : Prop :=
  match ops with
  | [] => True
  | o :: ops' => (t <= opTime o)%Z /\ chronological (opTime o) ops'
  end.

Definition wellFormed (ops : list op) : Prop :=
  Forall (fun o => (0 <= opBytes o)%Z) ops.

End QueueEstimator.

(** ** Driver.h *)

(** Addresses of objects; a C++ pointer is an [option addr], [None] being
    the null pointer. *)
Abbreviation addr := N (only parsing).

Module Driver.

(** [Driver::Received]: an incoming packet. *)
Record Received : Type := mkReceived {
  sender : option addr;     (* const Address* *)
  driver : option addr;     (* Driver* *)
  len : Z;                  (* uint32_t *)
  payload : option addr     (* char* *)
}.

(** [Received()] *)
Definition Received_new : Received :=
  {| sender := None; driver := None; len := 0; payload := None |}.

(** [Received(Received&& other)]: the new envelope, and [other] as the
    constructor leaves it. *)
Definition Received_move (other : Received) : Received * Received :=
  ({| sender := sender other;
      driver := driver other;
      len := len other;
      payload := payload other |},
   {| sender := None; driver := None; len := 0; payload := None |}).

(** [static const uint32_t MAX_DRAIN_TIME = 2000;] (nanoseconds) *)
Definition MAX_DRAIN_TIME : Z := 2000.

(** The body of the virtual [Driver::getTransmitQueueSpace], used by every
    driver that does not override it. *)
Definition getTransmitQueueSpace (currentTime : Z) : Z := 10000000.

(** The virtual methods of a driver that the envelope and the transports
    call without knowing the backend. *)
Class Methods (D : Type) : Type := {
  getMaxPacketSize : D -> Z;
  transmitQueueSpace : D -> Z -> D * Z;
  release : D -> addr -> outcome D
}.

(** Driver objects live at addresses; an envelope names its driver by
    address. *)
Abbreviation Drivers D := (gmap addr D) (only parsing).

(** Modelled from the spec: [Received::~Received] (Driver.cc is not part of
    the sources).  "While [payload] is non-null, destruction of the
    envelope MUST return the memory to the owning driver exactly once";
    with a null [payload] "someone else has taken responsibility for it"
    and nothing is returned. *)
Definition Received_destroy {D} `{Methods D} (r : Received) (w : Drivers D)
  : outcome (Drivers D) :=
  match payload r with
  | None => Ok w
  | Some p =>
      match driver r ≫= (fun a => (a,.) <$> w !! a) with
      | None => Halt MemoryFault
      | Some (a, d) => let* d' := release d p in Ok (<[a := d']> w)
      end
  end.

(** Modelled from the spec: [Received::steal] (Driver.cc is not part of the
    sources).  "After [steal()] is called, the envelope no longer owns the
    memory ([payload] cleared)"; the caller gets the payload pointer and,
    through the out-parameter, the length. *)
Definition steal (r : Received) : Received * (option addr * Z) :=
  ({| sender := sender r; driver := driver r; len := len r; payload := None |},
   (payload r, len r)).

(** Destroying every envelope of [rs], first to last. *)
Fixpoint destroyAll {D} `{Methods D} (rs : list Received) (w : Drivers D)
  : outcome (Drivers D) :=
  match rs with
  | [] => Ok w
  | r :: rest => let* w' := Received_destroy r w in destroyAll rest w'
  end.

(** [n] successive moves of an envelope: where the packet ends up, and the
    moved-from envelopes left behind. *)
Fixpoint moves (n : nat) (r : Received)
  : Received * list Received :=
  match n with
  | O => (r, [])
  | S n' =>
      let '(new, old) := Received_move r in
      let '(final, husks) := moves n' new in
      (final, old :: husks)
  end.

End Driver.

(** ** NetUtil.h, MacAddress.h *)

Module MacAddress.

(** [uint8_t address[6]] *)
Record t : Type := mk { a0 : byte; a1 : byte; a2 : byte;
                        a3 : byte; a4 : byte; a5 : byte }.

Definition address (m : t) : list byte :=
  [a0 m; a1 m; a2 m; a3 m; a4 m; a5 m].

(** [MacAddress(const uint8_t raw[6])]: the six bytes at [raw]; [None]
    when fewer than six bytes are there to read. *)
Definition ofRaw (raw : list byte) : option t :=
  match raw with
  | b0 :: b1 :: b2 :: b3 :: b4 :: b5 :: _ => Some (mk b0 b1 b2 b3 b4 b5)
  | _ => None
  end.

Definition eqb (m n : t) : bool :=
  bool_decide (address m = address n).

Definition isNull (m : t) : bool :=
  bool_decide (address m = replicate 6 x00).

Definition hexDigit (c : ascii) : option N :=
  let n := N_of_ascii c in
  if decide (48 <= n <= 57)%N then Some (n - 48)%N
  else if decide (97 <= n <= 102)%N then Some (n - 87)%N
  else if decide (65 <= n <= 70)%N then Some (n - 55)%N
  else None.

Definition hexByte (hi lo : ascii) : option byte :=
  h ← hexDigit hi; l ← hexDigit lo; Byte.of_N (16 * h + l).

(** Modelled from the spec: [MacAddress(const char* macStr)] (MacAddress.h
    is not part of the sources): the textual form [hh:hh:hh:hh:hh:hh];
    anything else is "present but malformed". *)
Definition parse (s : string) : option t :=
  match list_ascii_of_string s with
  | [h0; l0; c0; h1; l1; c1; h2; l2; c2; h3; l3; c3; h4; l4; c4; h5; l5] =>
      if bool_decide ([c0; c1; c2; c3; c4] = replicate 5 ":"%char) then
        b0 ← hexByte h0 l0; b1 ← hexByte h1 l1; b2 ← hexByte h2 l2;
        b3 ← hexByte h3 l3; b4 ← hexByte h4 l4; b5 ← hexByte h5 l5;
        Some (mk b0 b1 b2 b3 b4 b5)
      else None
  | _ => None
  end.

Definition fromString (key : string) (s : string) : outcome t :=
  match parse s with
  | Some m => Ok m
  | None => Throw (BadValueException key)
  end.

Definition hexChar (n : N) : ascii :=
  ascii_of_N (if decide (n < 10)%N then n + 48 else n + 87)%N.

Definition hexOfByte (b : byte) : string :=
  let n := Byte.to_N b in
  String (hexChar (n / 16)) (String (hexChar (n mod 16)) EmptyString).

(** [MacAddress::toString]: [hh:hh:hh:hh:hh:hh] *)
Definition toString (m : t) : string :=
  hexOfByte (a0 m) +:+ ":" +:+ hexOfByte (a1 m) +:+ ":" +:+
  hexOfByte (a2 m) +:+ ":" +:+ hexOfByte (a3 m) +:+ ":" +:+
  hexOfByte (a4 m) +:+ ":" +:+ hexOfByte (a5 m).

End MacAddress.

Module NetUtil.

(** [struct EthernetHeader { uint8_t destAddress[6]; uint8_t srcAddress[6];
    uint16_t etherType; }], packed. *)
Record EthernetHeader : Type := mkEthernetHeader {
  destAddress : MacAddress.t;
  srcAddress : MacAddress.t;
  etherType : Z               (* in network byte order on the wire *)
}.

Definition sizeof_ether_addr : Z := 6.
Definition sizeof_EthernetHeader : Z := 14.

Definition byteOfZ (z : Z) : byte :=
  default x00 (Byte.of_N (Z.to_N (z mod 256))).

(** The header as it lies in memory; [etherType] was stored through
    [HTONS], most significant byte first. *)
Definition bytes (h : EthernetHeader) : list byte :=
  MacAddress.address (destAddress h) ++ MacAddress.address (srcAddress h)
    ++ [byteOfZ (etherType h / 256); byteOfZ (etherType h)].

End NetUtil.

(** ** DpdkDriver.h *)

(** Constants declared in DpdkDriver.h and NetUtil.h, which are not part of
    the sources: they are parameters of the development. *)
Class DpdkConstants : Type := {
  MAX_PAYLOAD_SIZE : Z;    (* largest Ethernet payload, in bytes *)
  MBUF_DATA_ROOM : Z;      (* bytes that fit in the data area of an mbuf *)
  NB_MBUF : nat;           (* mbufs in the memory pool *)
  NDESC : nat;             (* descriptors of a NIC queue *)
  FAST : Z                 (* NetUtil::EthPayloadType::FAST *)
}.

Module DpdkDriver.
Section WithConstants.

Context `{K : DpdkConstants}.

(** A DPDK packet buffer, reduced to its data area. *)
Record rte_mbuf : Type := mkMbuf { pkt_data : list byte }.

Definition rte_pktmbuf_data_len (m : rte_mbuf) : Z :=
  Z.of_nat (length (pkt_data m)).

(** [struct PacketBuf { Tub<MacAddress> dpdkAddress;
    char payload[MAX_PAYLOAD_SIZE]; }] *)
Record PacketBuf : Type := mkPacketBuf {
  dpdkAddress : option MacAddress.t;
  payload : list byte
}.

Definition PacketBuf_new : PacketBuf :=
  {| dpdkAddress := None; payload := [] |}.

(** Modelled from the spec: [ObjectPool<PacketBuf>] (ObjectPool.h is not
    part of the sources), an "allocator of reusable receive-buffer
    slots".  [pool] lists the slots that were returned and wait for reuse,
    most recent first; [objects] holds the slots handed out. *)
Record ObjectPool : Type := mkPool {
  objects : gmap addr PacketBuf;
  pool : list addr;
  fresh : addr
}.

Definition ObjectPool_new : ObjectPool :=
  {| objects := ∅; pool := []; fresh := 1%N |}.

Definition ObjectPool_construct (p : ObjectPool) : addr * ObjectPool :=
  match pool p with
  | a :: rest =>
      (a, {| objects := <[a := PacketBuf_new]> (objects p);
             pool := rest; fresh := fresh p |})
  | [] =>
      (fresh p, {| objects := <[fresh p := PacketBuf_new]> (objects p);
                   pool := []; fresh := (fresh p + 1)%N |})
  end.

Definition ObjectPool_destroy (p : ObjectPool) (a : addr) : ObjectPool :=
  {| objects := delete a (objects p); pool := a :: pool p;
     fresh := fresh p |}.

Definition ObjectPool_store (p : ObjectPool) (a : addr) (b : PacketBuf)
  : ObjectPool :=
  {| objects := <[a := b]> (objects p); pool := pool p; fresh := fresh p |}.

(** The object state.  The pointers [packetPool] and [loopbackRing] stand
    for the DPDK objects they point to; [rxQueue] and [txQueue] are the
    queues of port [portId]. *)
Record t : Type := mk {
  packetBufPool : ObjectPool;
  packetBufsUtilized : Z;   (* int *)
  locatorString : string;
  localMac : MacAddress.t;   (* Tub<MacAddress>, occupied once constructed *)
  portId : Z;
  packetPool : nat;   (* rte_mempool*: free mbufs left in the pool *)
  loopbackRing : list rte_mbuf;   (* rte_ring*: the mbufs queued on the ring *)
  bandwidthGbps : Z;
  queueEstimator : QueueEstimator.t;
  maxTransmitQueueSize : Z;
  rxQueue : list rte_mbuf;   (* receive queue 0 of the port *)
  txQueue : list rte_mbuf;   (* transmit queue 0 of the port *)
  log : list string   (* messages written by LOG *)
}.

Definition set_packetBufPool (v : ObjectPool) (d : t) : t :=
  {| packetBufPool := v; packetBufsUtilized := packetBufsUtilized d;
     locatorString := locatorString d; localMac := localMac d;
     portId := portId d; packetPool := packetPool d;
     loopbackRing := loopbackRing d; bandwidthGbps := bandwidthGbps d;
     queueEstimator := queueEstimator d;
     maxTransmitQueueSize := maxTransmitQueueSize d; rxQueue := rxQueue d;
     txQueue := txQueue d; log := log d |}.

Definition set_packetBufsUtilized (v : Z) (d : t) : t :=
  {| packetBufPool := packetBufPool d; packetBufsUtilized := v;
     locatorString := locatorString d; localMac := localMac d;
     portId := portId d; packetPool := packetPool d;
     loopbackRing := loopbackRing d; bandwidthGbps := bandwidthGbps d;
     queueEstimator := queueEstimator d;
     maxTransmitQueueSize := maxTransmitQueueSize d; rxQueue := rxQueue d;
     txQueue := txQueue d; log := log d |}.

Definition set_packetPool (v : nat) (d : t) : t :=
  {| packetBufPool := packetBufPool d;
     packetBufsUtilized := packetBufsUtilized d;
     locatorString := locatorString d; localMac := localMac d;
     portId := portId d; packetPool := v; loopbackRing := loopbackRing d;
     bandwidthGbps := bandwidthGbps d; queueEstimator := queueEstimator d;
     maxTransmitQueueSize := maxTransmitQueueSize d; rxQueue := rxQueue d;
     txQueue := txQueue d; log := log d |}.

Definition set_loopbackRing (v : list rte_mbuf) (d : t) : t :=
  {| packetBufPool := packetBufPool d;
     packetBufsUtilized := packetBufsUtilized d;
     locatorString := locatorString d; localMac := localMac d;
     portId := portId d; packetPool := packetPool d; loopbackRing := v;
     bandwidthGbps := bandwidthGbps d; queueEstimator := queueEstimator d;
     maxTransmitQueueSize := maxTransmitQueueSize d; rxQueue := rxQueue d;
     txQueue := txQueue d; log := log d |}.

Definition set_queueEstimator (v : QueueEstimator.t) (d : t) : t :=
  {| packetBufPool := packetBufPool d;
     packetBufsUtilized := packetBufsUtilized d;
     locatorString := locatorString d; localMac := localMac d;
     portId := portId d; packetPool := packetPool d;
     loopbackRing := loopbackRing d; bandwidthGbps := bandwidthGbps d;
     queueEstimator := v; maxTransmitQueueSize := maxTransmitQueueSize d;
     rxQueue := rxQueue d; txQueue := txQueue d; log := log d |}.

Definition set_rxQueue (v : list rte_mbuf) (d : t) : t :=
  {| packetBufPool := packetBufPool d;
     packetBufsUtilized := packetBufsUtilized d;
     locatorString := locatorString d; localMac := localMac d;
     portId := portId d; packetPool := packetPool d;
     loopbackRing := loopbackRing d; bandwidthGbps := bandwidthGbps d;
     queueEstimator := queueEstimator d;
     maxTransmitQueueSize := maxTransmitQueueSize d; rxQueue := v;
     txQueue := txQueue d; log := log d |}.

Definition set_txQueue (v : list rte_mbuf) (d : t) : t :=
  {| packetBufPool := packetBufPool d;
     packetBufsUtilized := packetBufsUtilized d;
     locatorString := locatorString d; localMac := localMac d;
     portId := portId d; packetPool := packetPool d;
     loopbackRing := loopbackRing d; bandwidthGbps := bandwidthGbps d;
     queueEstimator := queueEstimator d;
     maxTransmitQueueSize := maxTransmitQueueSize d; rxQueue := rxQueue d;
     txQueue := v; log := log d |}.

Definition set_log (v : list string) (d : t) : t :=
  {| packetBufPool := packetBufPool d;
     packetBufsUtilized := packetBufsUtilized d;
     locatorString := locatorString d; localMac := localMac d;
     portId := portId d; packetPool := packetPool d;
     loopbackRing := loopbackRing d; bandwidthGbps := bandwidthGbps d;
     queueEstimator := queueEstimator d;
     maxTransmitQueueSize := maxTransmitQueueSize d; rxQueue := rxQueue d;
     txQueue := txQueue d; log := v |}.
Definition LOG (msg : string) (d : t) : t := set_log (log d ++ [msg]) d.

(** *** DPDK calls *)

(** [rte_pktmbuf_alloc]: [None] (a null mbuf) when the pool is empty. *)
Definition rte_pktmbuf_alloc (d : t) : option (rte_mbuf * t) :=
  match packetPool d with
  | O => None
  | S n => Some (mkMbuf [], set_packetPool n d)
  end.

Definition rte_pktmbuf_free (d : t) : t :=
  set_packetPool (S (packetPool d)) d.

(** [rte_pktmbuf_append]: [len] more bytes of data area, of unspecified
    content; [None] when they do not fit. *)
Definition rte_pktmbuf_append (m : rte_mbuf) (len : Z) : option rte_mbuf :=
  if decide (rte_pktmbuf_data_len m + len <= MBUF_DATA_ROOM)
  then Some (mkMbuf (pkt_data m ++ replicate (Z.to_nat len) x00))
  else None.

(** [rte_eth_rx_burst(portId, 0, mPkts, nb)] *)
Definition rte_eth_rx_burst (d : t) (nb : nat) : list rte_mbuf * t :=
  (take nb (rxQueue d), set_rxQueue (drop nb (rxQueue d)) d).

(** [rte_eth_tx_burst(portId, 0, &mbuf, 1)]; the driver ignores the
    number of packets the NIC accepted. *)
Definition rte_eth_tx_burst (d : t) (m : rte_mbuf) : t :=
  if decide (length (txQueue d) < NDESC)%nat
  then set_txQueue (txQueue d ++ [m]) d else d.

Definition rte_ring_count (d : t) : Z := Z.of_nat (length (loopbackRing d)).

(** A ring created with [count = 4096] holds [count - 1] entries; the
    driver ignores the result of [rte_ring_enqueue]. *)
Definition LOOPBACK_RING_COUNT : nat := 4096.

Definition rte_ring_enqueue (d : t) (m : rte_mbuf) : t :=
  if decide (length (loopbackRing d) < LOOPBACK_RING_COUNT - 1)%nat
  then set_loopbackRing (loopbackRing d ++ [m]) d else d.

Definition rte_ring_dequeue (d : t) : option rte_mbuf * t :=
  match loopbackRing d with
  | m :: rest => (Some m, set_loopbackRing rest d)
  | [] => (None, d)
  end.

(** *** Methods *)

(** [DpdkDriver::getMaxPacketSize] *)
Definition getMaxPacketSize (d : t) : Z :=
  wrap32 (MAX_PAYLOAD_SIZE - NetUtil.sizeof_EthernetHeader).

(** [DpdkDriver::getTransmitQueueSpace] *)
Definition getTransmitQueueSpace (d : t) (currentTime : Z) : t * Z :=
  let '(e, size) := QueueEstimator.getQueueSize (queueEstimator d) currentTime in
  (set_queueEstimator e d, to_int32 (maxTransmitQueueSize d - size)).

Definition MAX_PACKETS_AT_ONCE : Z := 32.

(** [for (i = 0; i < loopbackPkts; i++) rte_ring_dequeue(loopbackRing,
    &mPkts[incomingPkts + i]);] *)
Fixpoint dequeueLoopback (n : nat) (d : t) (mPkts : list rte_mbuf)
  : t * list rte_mbuf :=
  match n with
  | O => (d, mPkts)
  | S n' =>
      match rte_ring_dequeue d with
      | (Some m, d') => dequeueLoopback n' d' (mPkts ++ [m])
      | (None, d') => dequeueLoopback n' d' mPkts
      end
  end.

(** [rte_memcpy(dst, src + offset, len)] out of an mbuf into a buffer of
    [capacity] bytes. *)
Definition copyOut (src : list byte) (offset len capacity : Z)
  : outcome (list byte) :=
  if decide (offset + len <= Z.of_nat (length src) /\ len <= capacity)
  then Ok (take (Z.to_nat len) (drop (Z.to_nat offset) src))
  else Halt MemoryFault.

(** The body of the second loop of [receivePackets], for one mbuf. *)
Definition receiveOne (this : addr) (m : rte_mbuf)
    (d : t) (receivedPackets : list Driver.Received)
  : outcome (t * list Driver.Received) :=
  let '(buffer, bufPool) := ObjectPool_construct (packetBufPool d) in
  let d := set_packetBufPool bufPool d in
  let d := set_packetBufsUtilized (packetBufsUtilized d + 1) d in
  let* mac := match MacAddress.ofRaw
                      (drop (Z.to_nat NetUtil.sizeof_ether_addr) (pkt_data m)) with
              | Some a => Ok a
              | None => Halt MemoryFault
              end in
  let len := wrap32 (rte_pktmbuf_data_len m - NetUtil.sizeof_EthernetHeader) in
  let* bytes := copyOut (pkt_data m) NetUtil.sizeof_EthernetHeader len
                  MAX_PAYLOAD_SIZE in
  let d := set_packetBufPool
             (ObjectPool_store (packetBufPool d) buffer
                {| dpdkAddress := Some mac; payload := bytes |}) d in
  let receivedPackets :=
    receivedPackets ++
      [Driver.mkReceived (Some buffer) (Some this) len (Some buffer)] in
  Ok (rte_pktmbuf_free d, receivedPackets).

Fixpoint processPackets (this : addr) (mPkts : list rte_mbuf)
    (d : t) (receivedPackets : list Driver.Received)
  : outcome (t * list Driver.Received) :=
  match mPkts with
  | [] => Ok (d, receivedPackets)
  | m :: rest =>
      let* (d', receivedPackets') := receiveOne this m d receivedPackets in
      processPackets this rest d' receivedPackets'
  end.

(** [DpdkDriver::receivePackets] *)
Definition receivePackets (this : addr) (d : t) (maxPackets : Z)
    (receivedPackets : list Driver.Received)
  : outcome (t * list Driver.Received) :=
  let maxPackets :=
    if decide (maxPackets > MAX_PACKETS_AT_ONCE) then MAX_PACKETS_AT_ONCE
    else maxPackets in
  let '(mPkts, d) := rte_eth_rx_burst d (Z.to_nat (MAX_PACKETS_AT_ONCE / 2)) in
  let incomingPkts := Z.of_nat (length mPkts) in
  let loopbackPkts := rte_ring_count d in
  let loopbackPkts :=
    if decide (incomingPkts + loopbackPkts > MAX_PACKETS_AT_ONCE)
    then MAX_PACKETS_AT_ONCE - incomingPkts else loopbackPkts in
  let '(d, mPkts) := dequeueLoopback (Z.to_nat loopbackPkts) d mPkts in
  processPackets this mPkts d receivedPackets.

(** [DpdkDriver::release].  The method first takes the dispatch lock,
    which has no counterpart in a sequential model. *)
Definition release (d : t) (payload : addr) : outcome t :=
  let d := set_packetBufsUtilized (packetBufsUtilized d - 1) d in
  let* _ := assert (bool_decide (packetBufsUtilized d >= 0)) in
  Ok (set_packetBufPool (ObjectPool_destroy (packetBufPool d) payload) d).

(** [Buffer::Iterator]: the contiguous chunks still to be visited. *)
Definition Iterator : Type := list (list byte).

Definition Iterator_size (it : Iterator) : Z :=
  wrap32 (Z.of_nat (length (concat it))).

(** [while (payload && !payload->isDone()) { rte_memcpy(p, getData(),
    getLength()); p += getLength(); payload->next(); }]: the bytes written
    so far, chunk after chunk. *)
Fixpoint copyChunks (written : list byte) (payload : Iterator) : list byte :=
  match payload with
  | [] => written
  | chunk :: rest => copyChunks (written ++ chunk) rest
  end.

(** Writing [bytes] at the start of a data area. *)
Definition store (area bytes : list byte) : outcome (list byte) :=
  if decide (length bytes <= length area)%nat
  then Ok (bytes ++ drop (length bytes) area)
  else Halt MemoryFault.

Definition downCast (bits : Z) (z : Z) : outcome Z :=
  let* _ := assert (bool_decide (0 <= z < 2 ^ bits)) in Ok z.

(** [DpdkDriver::sendPacket]; [now] is what [Cycles::rdtsc()] returns at
    the end of the call. *)
Definition sendPacket (d : t) (addr : MacAddress.t) (header : list byte)
    (payload : option Iterator) (now : Z) : outcome t :=
  let headerLen := Z.of_nat (length header) in
  let totalLength :=
    wrap32 (headerLen + match payload with
                        | Some it => Iterator_size it
                        | None => 0
                        end) in
  let datagramLength := wrap32 (totalLength + NetUtil.sizeof_EthernetHeader) in
  let* _ := assert (bool_decide (totalLength <= MAX_PAYLOAD_SIZE)) in
  match rte_pktmbuf_alloc d with
  | None =>
      Ok (LOG "Failed to allocate a packet buffer; dropping packet" d)
  | Some (mbuf, d) =>
      let* len16 := downCast 16 datagramLength in
      match rte_pktmbuf_append mbuf len16 with
      | None =>
          Ok (rte_pktmbuf_free
                (LOG "rte_pktmbuf_append call failed; dropping packet" d))
      | Some mbuf =>
          let ethHdr :=
            {| NetUtil.destAddress := addr;
               NetUtil.srcAddress := localMac d;
               NetUtil.etherType := FAST |} in
          let p := NetUtil.bytes ethHdr in
          let p := p ++ header in
          let p := copyChunks p (default [] payload) in
          let* data := store (pkt_data mbuf) p in
          let mbuf := mkMbuf data in
          let d :=
            if MacAddress.eqb addr (localMac d)
            then rte_ring_enqueue d mbuf
            else rte_eth_tx_burst d mbuf in
          Ok (set_queueEstimator
                (QueueEstimator.packetQueued (queueEstimator d)
                   totalLength now) d)
      end
  end.

(** [DpdkDriver::~DpdkDriver]; stopping the port leaves no trace in the
    model. *)
Definition destroy (d : t) : t :=
  if decide (packetBufsUtilized d <> 0)
  then LOG ("DpdkDriver deleted with " +:+ pretty (packetBufsUtilized d)
              +:+ " packets still in use") d
  else d.

(** [DpdkDriver::getServiceLocator] *)
Definition getServiceLocator (d : t) : t * string :=
  (LOG ("Locator string: " +:+ locatorString d) d, locatorString d).

(** *** Construction *)

(** What DPDK and the clock answer while a driver is constructed. *)
Record Environment : Type := mkEnvironment {
  cyclesPerSec : Z;            (* Cycles::perSecond() *)
  mempoolCreated : bool;       (* rte_mempool_create returned a pool *)
  numPorts : Z;                (* rte_eth_dev_count() *)
  deviceMac : MacAddress.t;    (* rte_eth_macaddr_get *)
  linkStatus : bool;           (* link.link_status *)
  mtuAccepted : bool;          (* rte_eth_dev_set_mtu returned 0 *)
  ringCreated : bool           (* rte_ring_create returned a ring *)
}.

(** [StringUtil::stringToInt(s, &error)] *)
Definition stringToInt (s : string) : Z * bool :=
  match ServiceLocator.parseInt s with
  | Some n => (n, false)
  | None => (0, true)
  end.

(** [(uint32_t) x] for a [double] [x] that holds the rational [x] exactly:
    the fraction is dropped.  A value that does not fit [uint32_t] does not
    stop the program: the conversion, done on x86-64 through a signed
    64-bit integer (which is [- 2 ^ 63] when even that is too small), keeps
    the low 32 bits. *)
Definition double_to_uint32 (x : Q) : Z :=
  let z := if Qlt_le_dec x 0 then Qceiling x else Qfloor x in
  wrap32 (if decide (- 2 ^ 63 <= z < 2 ^ 63) then z else - 2 ^ 63).

(** The body of [if (localServiceLocator != NULL) { ... }]: the MAC
    address, port and bandwidth the locator asks for. *)
Definition parseLocator (sl : ServiceLocator.t)
  : outcome (option MacAddress.t * Z * Z) :=
  let* localMac :=
    catchNoSuchKey
      (let* s := ServiceLocator.getOption sl "mac" in
       let* m := MacAddress.fromString "mac" s in Ok (Some m))
      (Ok None) in
  let* portId :=
    catchNoSuchKey
      (let* localPort := ServiceLocator.getOption sl "devport" in
       let '(n, error) := stringToInt localPort in
       let* portId := downCast 8 n in
       if error
       then Throw (DriverException
                     ("Bad devport option in service locator: "
                        +:+ ServiceLocator.getOriginalString sl))
       else Ok portId)
      (Ok 0) in
  let* bandwidthGbps :=
    catchNoSuchKey (ServiceLocator.getOptionInt sl "gbs") (Ok 10) in
  Ok (localMac, portId, bandwidthGbps).

(** The throttling threshold the constructor derives from the bandwidth. *)
Definition deriveMaxTransmitQueueSize (bandwidthGbps : Z) : Z :=
  let maxTransmitQueueSize :=
    double_to_uint32
      (inject_Z bandwidthGbps * inject_Z Driver.MAX_DRAIN_TIME / 8)%Q in
  let maxPacketSize := wrap32 (MAX_PAYLOAD_SIZE - NetUtil.sizeof_EthernetHeader) in
  if decide (maxTransmitQueueSize < wrap32 (2 * maxPacketSize))
  then wrap32 (2 * maxPacketSize)
  else maxTransmitQueueSize.

(** [DpdkDriver::DpdkDriver] *)
Definition create (localServiceLocator : option ServiceLocator.t)
    (env : Environment) : outcome t :=
  let* (locatorString, localMac, portId, bandwidthGbps) :=
    match localServiceLocator with
    | Some sl =>
        let* (localMac, portId, bandwidthGbps) := parseLocator sl in
        Ok (ServiceLocator.getOriginalString sl, localMac, portId,
            bandwidthGbps)
    | None => Ok (EmptyString, None, 0, 10)
    end in
  let queueEstimator :=
    QueueEstimator.setBandwidth
      (QueueEstimator.create 0 (cyclesPerSec env))
      (1000 * bandwidthGbps) (cyclesPerSec env) in
  let maxTransmitQueueSize := deriveMaxTransmitQueueSize bandwidthGbps in
  if negb (mempoolCreated env)
  then Throw (DriverException
                "Failed to allocate memory for packet buffers")
  else if decide (numPorts env <= portId)
  then Throw (DriverException "Ethernet port doesn't exist")
  else
    let '(localMac, locatorString) :=
      match localMac with
      | Some m =>
          if MacAddress.isNull m
          then (deviceMac env,
                "basic+dpdk:mac=" +:+ MacAddress.toString (deviceMac env)
                  +:+ ",devport=" +:+ pretty portId)
          else (m, locatorString)
      | None =>
          (deviceMac env,
           "basic+dpdk:mac=" +:+ MacAddress.toString (deviceMac env)
             +:+ ",devport=" +:+ pretty portId)
      end in
    if negb (linkStatus env)
    then Throw (DriverException
                  "Failed to detect a link on the Ethernet port")
    else if negb (mtuAccepted env)
    then Throw (DriverException
                  "Failed to set the MTU on the Ethernet port")
    else if negb (ringCreated env)
    then Throw (DriverException "Failed to allocate loopback ring")
    else
      Ok {| packetBufPool := ObjectPool_new;
            packetBufsUtilized := 0;
            locatorString := locatorString;
            localMac := localMac;
            portId := portId;
            packetPool := NB_MBUF - NDESC;
            loopbackRing := [];
            bandwidthGbps := bandwidthGbps;
            queueEstimator := queueEstimator;
            maxTransmitQueueSize := maxTransmitQueueSize;
            rxQueue := [];
            txQueue := [];
            log := [] |}.

(** *** The Ethernet between two ports *)

(** The oldest frame waiting in the transmit queue of [a] is sent and
    lands, unchanged, in the receive queue of [b], in an mbuf of the pool
    of [b]; the mbuf it was sent from goes back to the pool of [a].  The
    frame is lost when [b] has no mbuf left. *)
Definition wire (a b : t) : t * t :=
  match txQueue a with
  | [] => (a, b)
  | m :: rest =>
      (rte_pktmbuf_free (set_txQueue rest a),
       match packetPool b with
       | O => b
       | S n => set_rxQueue (rxQueue b ++ [m]) (set_packetPool n b)
       end)
  end.

(** *** What a transport sees, and well-formed states *)

(** The bytes a payload iterator stands for. *)
Definition payloadBytes (payload : option Iterator) : list byte :=
  concat (default [] payload).

(** Header and payload together, in bytes. *)
Definition packetLength (header : list byte) (payload : option Iterator)
  : Z :=
  Z.of_nat (length header) + Z.of_nat (length (payloadBytes payload)).

(** The [len] bytes at the [payload] pointer of an envelope. *)
Definition contents (d : t) (r : Driver.Received) : option (list byte) :=
  p ← Driver.payload r;
  buf ← objects (packetBufPool d) !! p;
  Some (take (Z.to_nat (Driver.len r)) (payload buf)).

(** The address the [sender] pointer of an envelope points to. *)
Definition senderOf (d : t) (r : Driver.Received) : option MacAddress.t :=
  s ← Driver.sender r;
  buf ← objects (packetBufPool d) !! s;
  dpdkAddress buf.

(** The Ethernet frame [sendPacket] builds. *)
Definition frameFor (d : t) (addr : MacAddress.t) (header : list byte)
    (payload : option Iterator) : rte_mbuf :=
  mkMbuf (NetUtil.bytes {| NetUtil.destAddress := addr;
                           NetUtil.srcAddress := localMac d;
                           NetUtil.etherType := FAST |}
            ++ header ++ payloadBytes payload).

(** The constants fit together: a full frame fits an mbuf and its length
    fits the 16 bits of [rte_pktmbuf_append]. *)
Definition constantsSane : Prop :=
  14 <= MAX_PAYLOAD_SIZE /\
  MAX_PAYLOAD_SIZE + 14 <= MBUF_DATA_ROOM /\
  MAX_PAYLOAD_SIZE + 14 < 2 ^ 16.

(** No slot waits twice for reuse, and no slot that waits for reuse or
    was never handed out holds a packet: the state of a pool to which no
    buffer was returned twice. *)
Definition poolOk (p : ObjectPool) : Prop :=
  NoDup (pool p) /\
  (forall a, a ∈ pool p -> objects p !! a = None /\ (a < fresh p)%N) /\
  (forall a, (fresh p <= a)%N -> objects p !! a = None).

(** A frame that the NIC, configured for [MAX_PAYLOAD_SIZE] plus the
    Ethernet header, can deliver. *)
Definition frameOk (m : rte_mbuf) : Prop :=
  14 <= rte_pktmbuf_data_len m <= MAX_PAYLOAD_SIZE + 14.

Definition queuesOk (d : t) : Prop :=
  Forall frameOk (rxQueue d) /\ Forall frameOk (loopbackRing d).

(** The mbufs one call of [receivePackets] takes: up to 16 from the NIC,
    then from the loopback ring up to 32 in all. *)
Definition taken (d : t) : list rte_mbuf :=
  let incoming := take 16 (rxQueue d) in
  incoming ++ take (32 - length incoming) (loopbackRing d).

(** Envelope [r] carries frame [m]: it points to a buffer of the pool
    that holds the source address of the frame and the bytes after its
    Ethernet header. *)
Definition carries (this : addr) (d : t) (m : rte_mbuf) (r : Driver.Received)
  : Prop :=
  exists p,
    r = Driver.mkReceived (Some p) (Some this)
          (rte_pktmbuf_data_len m - 14) (Some p) /\
    objects (packetBufPool d) !! p
      = Some {| dpdkAddress := MacAddress.ofRaw (drop 6 (pkt_data m));
                payload := drop 14 (pkt_data m) |}.

(** The fields of the driver that receiving one packet leaves alone. *)
Definition sameQueues (d d' : t) : Prop :=
  rxQueue d' = rxQueue d /\ loopbackRing d' = loopbackRing d /\
  txQueue d' = txQueue d /\ localMac d' = localMac d /\
  queueEstimator d' = queueEstimator d /\ log d' = log d.

(** The frames that wait to leave, on the loopback ring and in the
    transmit queue, are well formed, and there are no more of them than
    the ring and the queue can hold. *)
Definition outboundOk (d : t) : Prop :=
  Forall frameOk (loopbackRing d) /\
  (length (loopbackRing d) <= LOOPBACK_RING_COUNT - 1)%nat /\
  Forall frameOk (txQueue d) /\
  (length (txQueue d) <= NDESC)%nat.

(** What the constructor fixes for the life of a driver. *)
Definition sameConfiguration (d d' : t) : Prop :=
  localMac d' = localMac d /\ locatorString d' = locatorString d /\
  portId d' = portId d /\ bandwidthGbps d' = bandwidthGbps d /\
  maxTransmitQueueSize d' = maxTransmitQueueSize d.

(** *** Sequences of calls *)

(** What a transport does with one driver: poll, give a buffer back,
    send, ask for queue space; and what the NIC does meanwhile. *)
Inductive call : Type :=
| ReceivePackets (maxPackets : Z)
| Release (payload : addr)
| SendPacket (addr : MacAddress.t) (header : list byte)
             (payload : option Iterator) (now : Z)
| GetTransmitQueueSpace (currentTime : Z)
| Arrival (m : rte_mbuf).

Definition perform (this : addr) (c : call)
    (st : t * list Driver.Received) : outcome (t * list Driver.Received) :=
  let '(d, received) := st in
  match c with
  | ReceivePackets maxPackets => receivePackets this d maxPackets received
  | Release p => let* d' := release d p in Ok (d', received)
  | SendPacket a h p now => let* d' := sendPacket d a h p now in Ok (d', received)
  | GetTransmitQueueSpace now => Ok (fst (getTransmitQueueSpace d now), received)
  | Arrival m => Ok (set_rxQueue (rxQueue d ++ [m]) d, received)
  end.

Fixpoint run (this : addr) (calls : list call)
    (st : t * list Driver.Received) : outcome (t * list Driver.Received) :=
  match calls with
  | [] => Ok st
  | c :: rest => let* st' := perform this c st in run this rest st'
  end.

(** The payloads given to [release] along [calls], in order. *)
Definition released (calls : list call) : list addr :=
  omap (fun c => match c with Release p => Some p | _ => None end) calls.

(** How many times [release] is called along [calls]. *)
Definition releases (calls : list call) : Z :=
  Z.of_nat (length (released calls)).

(** The payloads of the envelopes of [received]. *)
Definition handedOut (received : list Driver.Received) : list addr :=
  omap Driver.payload received.

(** How often [p] occurs in [l]. *)
Definition occurrences (p : addr) (l : list addr) : nat :=
  length (filter (fun q => q = p) l).

End WithConstants.
End DpdkDriver.

#[global] Instance DpdkDriver_Methods `{DpdkConstants}
  : Driver.Methods DpdkDriver.t :=
  {| Driver.getMaxPacketSize := DpdkDriver.getMaxPacketSize;
     Driver.transmitQueueSpace := DpdkDriver.getTransmitQueueSpace;
     Driver.release := DpdkDriver.release |}.

(** The usual Ethernet sizes, for evaluating the model on examples: 1500
    bytes of payload, 2048 bytes of data area per mbuf, 8192 mbufs, 256
    descriptors per queue, and an experimental ethertype. *)
Definition ethernetConstants : DpdkConstants :=
  {| MAX_PAYLOAD_SIZE := 1500;
     MBUF_DATA_ROOM := 2048;
     NB_MBUF := Z.to_nat 8192;
     NDESC := 256;
     FAST := 0x88b5 |}.

(** ** Addresses from locators *)

Module Address.

Inductive OptionType : Type := Text | Numeric | HardwareAddress.

Inductive OptionValue : Type :=
| TextValue (s : string)
| NumericValue (n : Z)
| HardwareValue (m : MacAddress.t).

(** Modelled from the spec: [Driver::newAddress] is pure virtual in
    Driver.h, and the definition of no backend is part of the sources.
    A backend "parses backend-specific locator options" ("a physical port
    index, a hardware address, or host/port for socket backends") and
    "fails with a NoSuchKeyException-kind error when a required option is
    absent, and a BadValueException-kind error when present but
    malformed".  A backend is given by the options it requires, in the
    order in which it reads them. *)
Definition readOption (sl : ServiceLocator.t) (o : string * OptionType)
  : outcome OptionValue :=
  match o.2 with
  | Text =>
      let* v := ServiceLocator.getOption sl o.1 in Ok (TextValue v)
  | Numeric =>
      let* n := ServiceLocator.getOptionInt sl o.1 in Ok (NumericValue n)
  | HardwareAddress =>
      let* v := ServiceLocator.getOption sl o.1 in
      let* m := MacAddress.fromString o.1 v in Ok (HardwareValue m)
  end.

Fixpoint newAddress (required : list (string * OptionType))
    (sl : ServiceLocator.t) : outcome (list OptionValue) :=
  match required with
  | [] => Ok []
  | o :: rest =>
      let* v := readOption sl o in
      let* vs := newAddress rest sl in
      Ok (v :: vs)
  end.

(** A value has the form its option asks for. *)
Definition wellFormed (ty : OptionType) (v : string) : Prop :=
  match ty with
  | Text => True
  | Numeric => is_Some (ServiceLocator.parseInt v)
  | HardwareAddress => is_Some (MacAddress.parse v)
  end.

Definition absent (sl : ServiceLocator.t) (o : string * OptionType) : Prop :=
  ServiceLocator.options sl !! o.1 = None.

Definition malformed (sl : ServiceLocator.t) (o : string * OptionType) : Prop :=
  exists v, ServiceLocator.options sl !! o.1 = Some v /\ ~ wellFormed o.2 v.

(** The options of the hardware-address backend and of a socket backend. *)
Definition dpdkOptions : list (string * OptionType) :=
  [("mac", HardwareAddress)].

Definition udpOptions : list (string * OptionType) :=
  [("host", Text); ("port", Numeric)].

End Address.

(** ** Example configurations *)

Module Sample.

Import DpdkDriver.

#[local] Existing Instance ethernetConstants.

Definition mac (last : byte) : MacAddress.t :=
  MacAddress.mk x02 x00 x00 x00 x00 last.

Definition environment (m : MacAddress.t) : Environment :=
  {| cyclesPerSec := 2000000000;
     mempoolCreated := true;
     numPorts := 1;
     deviceMac := m;
     linkStatus := true;
     mtuAccepted := true;
     ringCreated := true |}.

(** A driver as the constructor leaves it when it is given no locator. *)
Definition idle (m : MacAddress.t) : t :=
  {| packetBufPool := ObjectPool_new;
     packetBufsUtilized := 0;
     locatorString := "basic+dpdk:mac=" +:+ MacAddress.toString m
                        +:+ ",devport=0";
     localMac := m;
     portId := 0;
     packetPool := NB_MBUF - NDESC;
     loopbackRing := [];
     bandwidthGbps := 10;
     queueEstimator := QueueEstimator.create 10000 2000000000;
     maxTransmitQueueSize := 2972;
     rxQueue := [];
     txQueue := [];
     log := [] |}.

Definition bytesOf (s : string) : list byte := String.list_byte_of_string s.

(** An Ethernet frame from [src] to [dst] that carries [content]. *)
Definition frame (dst src : MacAddress.t) (content : string) : rte_mbuf :=
  mkMbuf (NetUtil.bytes (NetUtil.mkEthernetHeader dst src FAST)
            ++ bytesOf content).

(** A locator, by its options. *)
Definition locator (text : string) (opts : list (string * string))
  : ServiceLocator.t :=
  ServiceLocator.mk text (list_to_map opts).

(** The driver of [mac x01], at address 7, with frames waiting. *)
Definition this : addr := 7%N.

Definition withArrivals (frames : list rte_mbuf) : t :=
  set_rxQueue frames (idle (mac x01)).

Definition withLoopback (frames : list rte_mbuf) : t :=
  set_loopbackRing frames (idle (mac x01)).

End Sample.

(** * Properties *)

(** ** Results of calls *)

Lemma obind_Ok {A B} (m : outcome A) (k : A -> outcome B) (b : B) :
  obind m k = Ok b -> exists a, m = Ok a /\ k a = Ok b.
Proof. destruct m; simpl; intros; [eauto | discriminate | discriminate]. Qed.

Ltac inv_bind H :=
  let a := fresh "a" in
  let Ha := fresh "Ha" in
  apply obind_Ok in H; destruct H as (a & Ha & H).

(** ** The model on the values of the unit tests *)

(** [gbs=40] at 2e9 ticks per second: 2.5 bytes per tick, as the driver
    test expects of [queueEstimator.bandwidth]. *)
Example bandwidth_of_gbsOption :
  (QueueEstimator.bandwidth (QueueEstimator.create 40000 2000000000) == 5 # 2)%Q.
Proof. reflexivity. Qed.

(** Without a locator the constructor uses the MAC address of the device,
    port 0 and 10 Gbit/s. *)
Example create_without_locator :
  @DpdkDriver.create ethernetConstants None
    (Sample.environment (Sample.mac x01))
  = Ok (Sample.idle (Sample.mac x01)).
Proof. vm_compute. reflexivity. Qed.

(** No port, no driver. *)
Example create_without_port :
  is_throw
    (@DpdkDriver.create ethernetConstants None
       (DpdkDriver.mkEnvironment 2000000000 true 0 (Sample.mac x01)
          true true true)) = true.
Proof. reflexivity. Qed.

Example parse_mac :
  MacAddress.parse "02:00:00:00:00:0a" = Some (Sample.mac x0a) /\
  MacAddress.parse "02:00:00:00:00" = None /\
  MacAddress.toString (Sample.mac x0a) = "02:00:00:00:00:0a".
Proof. repeat split. Qed.

Example parseInt_examples :
  ServiceLocator.parseInt "40" = Some 40 /\
  ServiceLocator.parseInt "-3" = Some (-3) /\
  ServiceLocator.parseInt "4x" = None /\
  ServiceLocator.parseInt "" = None.
Proof. repeat split. Qed.

(** ** The move constructor of [Received] *)

Section Moves.

Context {D : Type} `{Driver.Methods D}.

Lemma moves_final (n : nat) (r : Driver.Received) : (Driver.moves n r).1 = r.
Proof.
  induction n as [|n IH] in r |- *; [reflexivity|].
  simpl. destruct r as [s dr l p]; simpl.
  specialize (IH (Driver.mkReceived s dr l p)).
  destruct (Driver.moves n _) as [final husks]; exact IH.
Qed.

Lemma moves_husks (n : nat) (r : Driver.Received) :
  (Driver.moves n r).2 = replicate n Driver.Received_new.
Proof.
  induction n as [|n IH] in r |- *; [reflexivity|].
  simpl. destruct r as [s dr l p]; simpl.
  specialize (IH (Driver.mkReceived s dr l p)).
  destruct (Driver.moves n _) as [final husks]; simpl in *. by rewrite IH.
Qed.

Lemma destroyAll_husks (n : nat) (w : Driver.Drivers D) :
  Driver.destroyAll (replicate n Driver.Received_new) w = Ok w.
Proof. induction n as [|n IH]; [reflexivity | exact IH]. Qed.

Lemma destroyAll_app (rs rs' : list Driver.Received) (w : Driver.Drivers D) :
  Driver.destroyAll (rs ++ rs') w = let* w' := Driver.destroyAll rs w in Driver.destroyAll rs' w'.
Proof.
  induction rs as [|r rs IH] in w |- *; [reflexivity|].
  simpl. destruct (Driver.Received_destroy r w); simpl; auto.
Qed.

(** C10.  The move constructor hands the packet over without duplicating
    it: the new envelope has the sender, driver, length and payload of the
    source; the source is left with null sender, driver and payload and
    length 0, so that destroying it returns nothing to any driver; and
    after any number of moves, destroying all the envelopes involved (the
    moved-from ones and the last holder, in either order) does to the
    drivers exactly what destroying the original envelope alone would
    have done: the buffer goes back at most once. *)
Theorem Received_move_transfers_ownership :
  forall (other : Driver.Received) (w : Driver.Drivers D) (n : nat),
    let '(new, old) := Driver.Received_move other in
    Driver.sender new = Driver.sender other /\
    Driver.driver new = Driver.driver other /\
    Driver.len new = Driver.len other /\
    Driver.payload new = Driver.payload other /\
    Driver.payload old = None /\ Driver.len old = 0 /\
    Driver.sender old = None /\ Driver.driver old = None /\
    Driver.Received_destroy old w = Ok w /\
    Driver.destroyAll ((Driver.moves n other).2 ++ [(Driver.moves n other).1]) w
      = Driver.Received_destroy other w /\
    Driver.destroyAll ((Driver.moves n other).1 :: (Driver.moves n other).2) w
      = Driver.Received_destroy other w.
Proof.
  intros other w n. simpl.
  repeat (split; [reflexivity|]).
  rewrite moves_final, moves_husks. split.
  - rewrite destroyAll_app, destroyAll_husks. simpl.
    destruct (Driver.Received_destroy other w); reflexivity.
  - simpl. destruct (Driver.Received_destroy other w) as [w'| |]; simpl;
      [apply destroyAll_husks | reflexivity | reflexivity].
Qed.

End Moves.

(** ** Packet buffers: who holds them, and the counter of buffers in use *)

Section Buffers.

Context `{K : DpdkConstants}.

Import DpdkDriver.

Lemma release_in_use (d : t) (p : addr) :
  1 <= packetBufsUtilized d ->
  release d p =
    Ok (set_packetBufPool (ObjectPool_destroy (packetBufPool d) p)
          (set_packetBufsUtilized (packetBufsUtilized d - 1) d)).
Proof.
  intros Hc. unfold release, assert. simpl.
  rewrite bool_decide_eq_true_2 by lia. reflexivity.
Qed.

Lemma release_underflow (d : t) (p : addr) :
  packetBufsUtilized d <= 0 -> release d p = Halt AssertionFailed.
Proof.
  intros Hc. unfold release, assert. simpl.
  rewrite bool_decide_eq_false_2 by lia. reflexivity.
Qed.

Lemma release_inv (d d' : t) (p : addr) :
  release d p = Ok d' ->
  1 <= packetBufsUtilized d /\
  packetBufsUtilized d' = packetBufsUtilized d - 1 /\
  pool (packetBufPool d') = p :: pool (packetBufPool d) /\
  objects (packetBufPool d') = delete p (objects (packetBufPool d)).
Proof.
  intros Hr. destruct (decide (1 <= packetBufsUtilized d)) as [Hc|Hc].
  - rewrite release_in_use in Hr by exact Hc. inversion Hr; subst. auto.
  - rewrite release_underflow in Hr by lia. discriminate.
Qed.

Lemma receiveOne_inv (this : addr) (m : rte_mbuf) (d d' : t)
    (out out' : list Driver.Received) :
  receiveOne this m d out = Ok (d', out') ->
  packetBufsUtilized d' = packetBufsUtilized d + 1 /\
  exists p len, out' = out ++ [Driver.mkReceived (Some p) (Some this) len (Some p)].
Proof.
  unfold receiveOne. destruct (ObjectPool_construct _) as [buffer bufPool].
  intros Hr. inv_bind Hr. inv_bind Hr. inversion Hr; subst. simpl.
  split; [reflexivity | eauto].
Qed.

Lemma processPackets_inv (this : addr) (mPkts : list rte_mbuf) (d d' : t)
    (out out' : list Driver.Received) :
  processPackets this mPkts d out = Ok (d', out') ->
  packetBufsUtilized d' = packetBufsUtilized d + Z.of_nat (length mPkts) /\
  exists rs, out' = out ++ rs /\ length rs = length mPkts /\
    Forall (fun r => is_Some (Driver.payload r) /\
                     Driver.driver r = Some this) rs.
Proof.
  induction mPkts as [|m rest IH] in d, out |- *; simpl; intros Hr.
  - inversion Hr; subst. split; [lia|]. exists []. by rewrite app_nil_r.
  - inv_bind Hr. destruct a as [d1 out1].
    apply receiveOne_inv in Ha as (Hc1 & p & len & ->).
    apply IH in Hr as (Hc & rs & -> & Hlen & Hall).
    split; [lia|].
    exists (Driver.mkReceived (Some p) (Some this) len (Some p) :: rs).
    rewrite <- app_assoc. simpl. repeat split; [by rewrite Hlen|].
    constructor; [simpl; eauto | exact Hall].
Qed.

Lemma dequeueLoopback_counter (n : nat) (d : t) (mPkts : list rte_mbuf) :
  packetBufsUtilized (dequeueLoopback n d mPkts).1 = packetBufsUtilized d.
Proof.
  induction n as [|n IH] in d, mPkts |- *; [reflexivity|].
  simpl. unfold rte_ring_dequeue. destruct (loopbackRing d) as [|m rest]; simpl.
  - apply IH.
  - rewrite IH. reflexivity.
Qed.

Lemma receivePackets_inv (this : addr) (d d' : t) (maxPackets : Z)
    (out out' : list Driver.Received) :
  receivePackets this d maxPackets out = Ok (d', out') ->
  exists rs, out' = out ++ rs /\
    packetBufsUtilized d' = packetBufsUtilized d + Z.of_nat (length rs) /\
    Forall (fun r => is_Some (Driver.payload r) /\
                     Driver.driver r = Some this) rs.
Proof.
  unfold receivePackets, rte_eth_rx_burst. intros Hr.
  match type of Hr with
  | context [dequeueLoopback ?n ?d0 ?l] =>
      pose proof (dequeueLoopback_counter n d0 l) as Hdq;
      destruct (dequeueLoopback n d0 l) as [d1 mPkts]
  end.
  simpl in Hdq.
  apply processPackets_inv in Hr as (Hc & rs & -> & Hlen & Hall).
  exists rs. repeat split; [|exact Hall]. lia.
Qed.

Lemma sendPacket_counter (d d' : t) (a : MacAddress.t) (header : list byte)
    (payload : option Iterator) (now : Z) :
  sendPacket d a header payload now = Ok d' ->
  packetBufsUtilized d' = packetBufsUtilized d /\
  packetBufPool d' = packetBufPool d.
Proof.
  unfold sendPacket. intros Hs. inv_bind Hs.
  unfold rte_pktmbuf_alloc in Hs. destruct (packetPool d) as [|n].
  - inversion Hs; subst. auto.
  - inv_bind Hs. destruct (rte_pktmbuf_append _ _) as [mbuf|].
    + inv_bind Hs. inversion Hs; subst. simpl.
      unfold rte_ring_enqueue, rte_eth_tx_burst.
      destruct (MacAddress.eqb _ _); destruct (decide _); auto.
    + inversion Hs; subst. auto.
Qed.

(** Along a sequence of calls the counter is the number of buffers handed
    out minus the number of calls of [release], and it is never negative. *)
Lemma run_counter (this : addr) (calls : list call) (d d' : t)
    (out out' : list Driver.Received) :
  0 <= packetBufsUtilized d ->
  run this calls (d, out) = Ok (d', out') ->
  0 <= packetBufsUtilized d' /\
  packetBufsUtilized d' =
    packetBufsUtilized d + Z.of_nat (length out') - Z.of_nat (length out)
      - releases calls.
Proof.
  unfold releases.
  induction calls as [|c rest IH] in d, out |- *; simpl; intros H0 Hr.
  - inversion Hr; subst. split; lia.
  - inv_bind Hr. destruct a as [d1 out1].
    assert (0 <= packetBufsUtilized d1 /\
            packetBufsUtilized d1 =
              packetBufsUtilized d + Z.of_nat (length out1)
                - Z.of_nat (length out)
                - Z.of_nat (length (released [c]))) as [H1 H1'].
    { destruct c as [maxPackets|p|a h p now|now|m]; simpl in Ha.
      - apply receivePackets_inv in Ha as (rs & -> & Hc & _).
        rewrite length_app. simpl. lia.
      - inv_bind Ha. inversion Ha; subst.
        apply release_inv in Ha0 as (? & ? & _). simpl. lia.
      - inv_bind Ha. inversion Ha; subst.
        apply sendPacket_counter in Ha0 as [? _]. simpl. lia.
      - inversion Ha; subst. simpl. lia.
      - inversion Ha; subst. simpl. lia. }
    apply IH in Hr as [H2 H2']; [|exact H1].
    split; [exact H2|].
    destruct c; simpl in *; lia.
Qed.

(** Every envelope a driver appends has a payload. *)
Lemma run_payloads (this : addr) (calls : list call) (d d' : t)
    (out out' : list Driver.Received) :
  Forall (fun r => is_Some (Driver.payload r)) out ->
  run this calls (d, out) = Ok (d', out') ->
  Forall (fun r => is_Some (Driver.payload r)) out'.
Proof.
  induction calls as [|c rest IH] in d, out |- *; simpl; intros Hall Hr.
  - inversion Hr; subst. exact Hall.
  - inv_bind Hr. destruct a as [d1 out1]. apply (IH d1 out1); [|exact Hr].
    destruct c as [maxPackets|p|a h p now|now|m]; simpl in Ha.
    + apply receivePackets_inv in Ha as (rs & -> & _ & Hrs).
      apply Forall_app. split; [exact Hall|].
      eapply Forall_impl; [exact Hrs|]. by intros r [? _].
    + inv_bind Ha. inversion Ha; subst. exact Hall.
    + inv_bind Ha. inversion Ha; subst. exact Hall.
    + inversion Ha; subst. exact Hall.
    + inversion Ha; subst. exact Hall.
Qed.

Lemma handedOut_length (out : list Driver.Received) :
  Forall (fun r => is_Some (Driver.payload r)) out ->
  length (handedOut out) = length out.
Proof.
  unfold handedOut. induction 1 as [|r out [p Hp] _ IH]; [reflexivity|].
  simpl. rewrite Hp. simpl. f_equal. exact IH.
Qed.

Lemma occurrences_app (p : addr) (l k : list addr) :
  occurrences p (l ++ k) = (occurrences p l + occurrences p k)%nat.
Proof. unfold occurrences. by rewrite filter_app, length_app. Qed.

Lemma occurrences_cons (p q : addr) (l : list addr) :
  occurrences p (q :: l)
    = ((if decide (q = p) then 1 else 0) + occurrences p l)%nat.
Proof.
  unfold occurrences. rewrite filter_cons. by destruct (decide (q = p)).
Qed.

(** If nothing occurs more often in [ps] than in [qs], then [ps] is no
    longer than [qs], and shorter when something occurs less often. *)
Lemma occurrences_length (ps qs : list addr) :
  (forall q, occurrences q ps <= occurrences q qs)%nat ->
  (length ps <= length qs)%nat /\
  (forall p, (occurrences p ps < occurrences p qs)%nat ->
             (length ps < length qs)%nat).
Proof.
  induction ps as [|x ps IH] in qs |- *; intros Hle.
  - split; [simpl; lia|]. intros p Hp. unfold occurrences in Hp.
    simpl in Hp. destruct qs; simpl in *; lia.
  - assert (x ∈ qs) as Hx.
    { specialize (Hle x). rewrite occurrences_cons, decide_True in Hle by done.
      unfold occurrences in Hle.
      destruct (filter (fun q => q = x) qs) as [|y l] eqn:Hf;
        [simpl in Hle; lia|].
      assert (y ∈ filter (fun q => q = x) qs) as Hy by (rewrite Hf; left).
      apply list_elem_of_filter in Hy as [-> Hy]. exact Hy. }
    apply list_elem_of_split in Hx as (l1 & l2 & ->).
    destruct (IH (l1 ++ l2)) as [Hlen Hstrict].
    { intros q. specialize (Hle q).
      rewrite occurrences_app, !occurrences_cons in Hle.
      rewrite occurrences_app. lia. }
    rewrite !length_app in *. simpl. split; [lia|].
    intros p Hp. rewrite occurrences_app, !occurrences_cons in Hp.
    specialize (Hstrict p). rewrite occurrences_app in Hstrict.
    lia.
Qed.

(** Started with no buffer in use, a sequence of calls in which every
    buffer handed out is released at least once and one of them more often
    than it was handed out does not run to its end: the assertion of
    [release] stops it. *)
Lemma run_double_release (this : addr) (calls : list call) (d d' : t)
    (out' : list Driver.Received) (p : addr) :
  packetBufsUtilized d = 0 ->
  (forall q, occurrences q (handedOut out') <= occurrences q (released calls))%nat ->
  (occurrences p (handedOut out') < occurrences p (released calls))%nat ->
  run this calls (d, []) <> Ok (d', out').
Proof.
  intros H0 Hall Hp Hrun.
  pose proof (run_payloads _ _ _ _ _ _ (Forall_nil_2 _) Hrun) as Hpay.
  apply handedOut_length in Hpay.
  apply run_counter in Hrun as [Hn Heq]; [|lia].
  destruct (occurrences_length _ _ Hall) as [_ Hstrict].
  specialize (Hstrict p Hp). unfold releases in Heq. simpl in Heq. lia.
Qed.

End Buffers.

Section Ownership.

Context `{K : DpdkConstants}.

Import DpdkDriver.

(** C1, as the code has it.  Take any envelope that [receivePackets] has
    just appended.  Its payload is non-null and its driver is the polling
    driver.  Destroying it returns the buffer to that driver exactly once:
    one slot, this one, is pushed on the pool and the counter of buffers in
    use drops by one.  [steal] hands out the payload and clears the field,
    after which destroying the envelope returns nothing; the caller's
    single [release] then has the effect the destructor would have had.
    The driver does not know which payloads are out: [release] looks at
    the counter alone.  A second [release] of the payload fails the
    assertion exactly when this buffer was the only one in use; when
    others are in use it returns, the counter drops once more and the slot
    waits twice for reuse.  Whatever calls follow, as long as no assertion
    has failed the counter is not negative and equals the number of
    buffers handed out minus the number of calls of [release].  So the
    surplus release is caught at the latest when the other buffers are
    released in their turn: started with no buffer in use, no sequence of
    calls runs to its end in which every buffer handed out is released and
    one of them more often than it was handed out. *)
Theorem Received_buffer_returned_exactly_once :
  forall (this : addr) (d d1 : t) (maxPackets : Z)
         (rs : list Driver.Received) (r : Driver.Received)
         (w : Driver.Drivers t),
    0 <= packetBufsUtilized d ->
    receivePackets this d maxPackets [] = Ok (d1, rs) ->
    r ∈ rs ->
    w !! this = Some d1 ->
    exists p,
      Driver.payload r = Some p /\ Driver.driver r = Some this /\
      (exists d2,
          Driver.Received_destroy r w = Ok (<[this := d2]> w) /\
          release d1 p = Ok d2 /\
          pool (packetBufPool d2) = p :: pool (packetBufPool d1) /\
          packetBufsUtilized d2 = packetBufsUtilized d1 - 1 /\
          0 <= packetBufsUtilized d2) /\
      (Driver.payload (Driver.steal r).1 = None /\
       (Driver.steal r).2 = (Some p, Driver.len r) /\
       Driver.Received_destroy (Driver.steal r).1 w = Ok w) /\
      (exists d2,
          release d1 p = Ok d2 /\
          (release d2 p = Halt AssertionFailed <-> packetBufsUtilized d1 = 1) /\
          (1 < packetBufsUtilized d1 ->
           exists d3,
             release d2 p = Ok d3 /\
             packetBufsUtilized d3 = packetBufsUtilized d1 - 2 /\
             pool (packetBufPool d3) = p :: p :: pool (packetBufPool d1))) /\
      (forall (calls : list call) (dn : t) (out : list Driver.Received),
          run this calls (d1, rs) = Ok (dn, out) ->
          0 <= packetBufsUtilized dn /\
          packetBufsUtilized dn =
            packetBufsUtilized d1
              + (Z.of_nat (length out) - Z.of_nat (length rs))
              - releases calls /\
          releases calls
            <= packetBufsUtilized d1
                 + (Z.of_nat (length out) - Z.of_nat (length rs))) /\
      (forall (calls : list call) (d0 dn : t) (out : list Driver.Received)
              (q : addr),
          packetBufsUtilized d0 = 0 ->
          (forall q', occurrences q' (handedOut out)
                      <= occurrences q' (released calls))%nat ->
          (occurrences q (handedOut out) < occurrences q (released calls))%nat ->
          run this calls (d0, []) <> Ok (dn, out)).
Proof.
  intros this d d1 maxPackets rs r w H0 Hrecv Hin Hw.
  apply receivePackets_inv in Hrecv as (rs' & Hrs & Hc & Hall).
  simpl in Hrs. subst rs'.
  rewrite Forall_forall in Hall.
  destruct (Hall r Hin) as [[p Hp] Hdr].
  assert (1 <= packetBufsUtilized d1) as H1.
  { destruct rs; [by apply not_elem_of_nil in Hin | simpl in Hc; lia]. }
  exists p. split; [exact Hp|]. split; [exact Hdr|].
  split; [|split; [|split; [|split]]].
  - eexists. unfold Driver.Received_destroy. rewrite Hp, Hdr. simpl.
    rewrite Hw. simpl. rewrite release_in_use by exact H1. simpl.
    split; [reflexivity|]. split; [reflexivity|]. simpl.
    split; [reflexivity|]. split; [reflexivity | lia].
  - unfold Driver.steal. simpl. rewrite Hp. auto.
  - eexists. split; [apply release_in_use; lia|]. split; [split|].
    + intros Hstop. destruct (decide (packetBufsUtilized d1 = 1)) as [|Hmore];
        [assumption|].
      rewrite release_in_use in Hstop by (simpl; lia). discriminate.
    + intros Hone. apply release_underflow. simpl. lia.
    + intros Hmore. eexists. split; [apply release_in_use; simpl; lia|].
      simpl. split; [lia | reflexivity].
  - intros calls dn out Hrun.
    apply run_counter in Hrun; [|lia]. destruct Hrun as [Hn Heq].
    split; [exact Hn|]. split; lia.
  - intros calls d0 dn out q Hz Hall' Hq. by apply (run_double_release _ _ _ _ _ q).
Qed.

End Ownership.

(** The claim's second release, undetected.  Two packets are received and
    the first is released twice.  The counter being 2 before the first
    release, both pass the assertion: the calls all return, the counter is
    0 and not negative, and the destructor, which looks at the counter,
    has nothing to report.  The slot of the first packet now waits twice
    for reuse, so the next two packets received are given the same buffer,
    and the envelope of the one shows the bytes of the other. *)
Lemma double_release_undetected_counterexample :
  let d := Sample.withArrivals
             [Sample.frame (Sample.mac x01) (Sample.mac x02) "one";
              Sample.frame (Sample.mac x01) (Sample.mac x02) "two"] in
  exists d' r1 r2,
    @DpdkDriver.run ethernetConstants Sample.this
      [DpdkDriver.ReceivePackets 2; DpdkDriver.Release 1%N;
       DpdkDriver.Release 1%N] (d, []) = Ok (d', [r1; r2]) /\
    Driver.payload r1 = Some 1%N /\ Driver.payload r2 = Some 2%N /\
    DpdkDriver.packetBufsUtilized d' = 0 /\
    DpdkDriver.log (DpdkDriver.destroy d') = [] /\
    DpdkDriver.pool (DpdkDriver.packetBufPool d') = [1%N; 1%N] /\
    exists d'' r3 r4,
      @DpdkDriver.run ethernetConstants Sample.this
        [DpdkDriver.Arrival
           (Sample.frame (Sample.mac x01) (Sample.mac x02) "three");
         DpdkDriver.Arrival
           (Sample.frame (Sample.mac x01) (Sample.mac x02) "seven");
         DpdkDriver.ReceivePackets 2] (d', []) = Ok (d'', [r3; r4]) /\
      Driver.payload r3 = Some 1%N /\ Driver.payload r4 = Some 1%N /\
      DpdkDriver.contents d'' r3 = Some (Sample.bytesOf "seven").
Proof.
  intros d. eexists _, _, _. split; [vm_compute; reflexivity|].
  do 5 (split; [reflexivity|]).
  eexists _, _, _. split; [vm_compute; reflexivity|].
  repeat split; reflexivity.
Qed.

(** The same misuse, caught late: when the second packet is released in
    its turn, after the first was released twice, the assertion fails. *)
Example double_release_caught_late :
  @DpdkDriver.run ethernetConstants Sample.this
    [DpdkDriver.ReceivePackets 2; DpdkDriver.Release 1%N;
     DpdkDriver.Release 1%N; DpdkDriver.Release 2%N]
    (Sample.withArrivals
       [Sample.frame (Sample.mac x01) (Sample.mac x02) "one";
        Sample.frame (Sample.mac x01) (Sample.mac x02) "two"], [])
  = Halt AssertionFailed.
Proof. vm_compute. reflexivity. Qed.

(** The theorem at work: one frame arrives, its envelope is destroyed and
    the buffer is back in the pool. *)
Lemma Received_buffer_returned_exactly_once_witness :
  let r := Driver.mkReceived (Some 1%N) (Some Sample.this) 5 (Some 1%N) in
  let d := Sample.withArrivals
             [Sample.frame (Sample.mac x01) (Sample.mac x02) "hello"] in
  exists d1 d2,
    @DpdkDriver.receivePackets ethernetConstants Sample.this d 1 []
      = Ok (d1, [r]) /\
    @Driver.Received_destroy _ (@DpdkDriver_Methods ethernetConstants) r
      {[ Sample.this := d1 ]}
      = Ok (<[ Sample.this := d2 ]> {[ Sample.this := d1 ]}) /\
    DpdkDriver.pool (DpdkDriver.packetBufPool d2)
      = 1%N :: DpdkDriver.pool (DpdkDriver.packetBufPool d1) /\
    0 <= DpdkDriver.packetBufsUtilized d2.
Proof.
  intros r d.
  assert (exists d1, @DpdkDriver.receivePackets ethernetConstants
                       Sample.this d 1 [] = Ok (d1, [r]))
    as [d1 Hrecv] by (eexists; vm_compute; reflexivity).
  destruct (@Received_buffer_returned_exactly_once ethernetConstants
              Sample.this d d1 1 [r] r {[ Sample.this := d1 ]})
    as (p & Hp & _ & (d2 & Hdes & _ & Hpool & _ & Hnn) & _).
  - vm_compute. discriminate.
  - exact Hrecv.
  - apply list_elem_of_singleton. reflexivity.
  - apply lookup_singleton_eq.
  - exists d1, d2. split; [exact Hrecv|]. split; [exact Hdes|].
    split; [|exact Hnn]. simpl in Hp. inversion Hp; subst p. exact Hpool.
Defined.

(** ** The queue estimator *)

Section Estimator.

Import QueueEstimator.

Local Open Scope Q_scope.

Lemma drained_nonneg (e : t) (now : Z) : 0 <= drained e now.
Proof. unfold drained. destruct (Qlt_le_dec _ 0); lra. Qed.

Lemma elapsed_nonneg (e : t) (now : Z) :
  0 <= bandwidth e -> (currentTime e <= now)%Z ->
  0 <= inject_Z (now - currentTime e) * bandwidth e.
Proof.
  intros Hb Ht. apply Qmult_le_0_compat; [|exact Hb].
  change 0 with (inject_Z 0). rewrite <- Zle_Qle. lia.
Qed.

Lemma drained_le (e : t) (now : Z) :
  0 <= bandwidth e -> (currentTime e <= now)%Z -> 0 <= queueSize e ->
  drained e now <= queueSize e.
Proof.
  intros Hb Ht Hq. pose proof (elapsed_nonneg e now Hb Ht) as He.
  unfold drained. destruct (Qlt_le_dec _ 0); lra.
Qed.

(** With the clock standing still nothing drains. *)
Lemma drained_same_time (e : t) :
  0 <= queueSize e -> drained e (currentTime e) == queueSize e.
Proof.
  intros Hq. unfold drained. rewrite Z.sub_diag.
  change (inject_Z 0) with 0.
  destruct (Qlt_le_dec _ 0) as [Hlt|Hle]; [lra | ring].
Qed.

(** What holds of every estimator that started empty and was driven by a
    chronological sequence of operations. *)
Lemma run_invariant (ops : list op) (e : t) :
  0 <= bandwidth e -> 0 <= queueSize e ->
  chronological (currentTime e) ops -> wellFormed ops ->
  bandwidth (run e ops) = bandwidth e /\
  0 <= queueSize (run e ops) /\
  queueSize (run e ops) <= queueSize e + inject_Z (totalQueued ops) /\
  (currentTime e <= currentTime (run e ops))%Z.
Proof.
  unfold run, wellFormed.
  induction ops as [|o ops IH] in e |- *; simpl; intros Hb Hq Hchr Hwf.
  - split; [reflexivity|]. split; [exact Hq|].
    split; [change (inject_Z 0) with 0; lra | lia].
  - destruct Hchr as [Ht Hchr]. apply Forall_cons in Hwf as [Ho Hwf].
    pose proof (drained_nonneg e (opTime o)) as Hd0.
    pose proof (drained_le e (opTime o) Hb Ht Hq) as Hd1.
    assert (0 <= inject_Z (opBytes o)) as Hbytes.
    { change 0 with (inject_Z 0). rewrite <- Zle_Qle. exact Ho. }
    destruct (IH (step e o)) as (Hb' & Hq' & Hle' & Ht').
    + destruct o; simpl; exact Hb.
    + destruct o; simpl in *; lra.
    + destruct o; simpl in *; exact Hchr.
    + exact Hwf.
    + rewrite inject_Z_plus.
      assert (bandwidth (step e o) = bandwidth e) as Hbs
          by (destruct o; reflexivity).
      assert (currentTime (step e o) = opTime o) as Hts
          by (destruct o; reflexivity).
      assert (queueSize (step e o) == drained e (opTime o) + inject_Z (opBytes o))
        as Hqs.
      { destruct o; simpl; [reflexivity|]. unfold inject_Z at 1. ring. }
      split; [congruence|]. split; [exact Hq'|]. split; [lra | lia].
Qed.

(** C7.  Let the estimator start empty, with a bandwidth that is not
    negative, and let [ops] be what happened to it since, in chronological
    order.  Then the size it reports at any time is not negative; right
    after [packetQueued bytes now] it reports no less than it would have
    reported at [now] without it; when only time passes, from [t1] to
    [t2], it reports no more at [t2] than at [t1], having drained
    [(t2 - t1) * bandwidth] bytes or down to zero; and at any time after
    the last operation it reports no more than the bytes that were handed
    to [packetQueued]. *)
Theorem getQueueSize_monotone :
  forall (e0 : t) (ops : list op) (now bytes t1 t2 : Z),
    0 <= bandwidth e0 -> queueSize e0 == 0 ->
    chronological (currentTime e0) ops -> wellFormed ops ->
    (0 <= bytes)%Z -> (t1 <= t2)%Z ->
    let e := run e0 ops in
    (0 <= (getQueueSize e now).2)%Z /\
    ((getQueueSize e now).2
       <= (getQueueSize (packetQueued e bytes now) now).2)%Z /\
    ((getQueueSize (getQueueSize e t1).1 t2).2 <= (getQueueSize e t1).2)%Z /\
    (queueSize (getQueueSize (getQueueSize e t1).1 t2).1
       == Qmax 0 (queueSize (getQueueSize e t1).1
                    - inject_Z (t2 - t1) * bandwidth e0)) /\
    ((currentTime e <= now)%Z ->
     ((getQueueSize e now).2 <= totalQueued ops)%Z).
Proof.
  intros e0 ops now bytes t1 t2 Hb Hq0 Hchr Hwf Hbytes Ht e.
  destruct (run_invariant ops e0 Hb ltac:(lra) Hchr Hwf)
    as (Hbe & Hqe & Hle & Hte).
  fold e in Hbe, Hqe, Hle, Hte.
  assert (0 <= inject_Z bytes) as HbytesQ.
  { change 0 with (inject_Z 0). rewrite <- Zle_Qle. exact Hbytes. }
  split; [|split; [|split; [|split]]].
  - simpl. change 0%Z with (Qfloor 0). apply Qfloor_resp_le, drained_nonneg.
  - simpl. apply Qfloor_resp_le.
    pose proof (drained_nonneg e now) as Hd.
    rewrite (drained_same_time
               {| bandwidth := bandwidth e; currentTime := now;
                  queueSize := drained e now + inject_Z bytes |});
      simpl; lra.
  - simpl. apply Qfloor_resp_le. apply (drained_le (advance e t1) t2).
    + simpl. rewrite Hbe. exact Hb.
    + simpl. exact Ht.
    + simpl. apply drained_nonneg.
  - simpl. unfold drained at 1. simpl. rewrite Hbe.
    destruct (Qlt_le_dec _ 0) as [Hlt|Hge].
    + symmetry. apply Q.max_l. lra.
    + symmetry. apply Q.max_r. lra.
  - intros Hnow. simpl.
    rewrite <- (Qfloor_Z (totalQueued ops)). apply Qfloor_resp_le.
    pose proof (drained_le e now ltac:(rewrite Hbe; exact Hb) Hnow Hqe).
    lra.
Qed.

End Estimator.

Lemma getQueueSize_monotone_witness :
  (0 <= (QueueEstimator.getQueueSize
           (QueueEstimator.run (QueueEstimator.create 10000 2000000000)
              [QueueEstimator.Queued 1000 0; QueueEstimator.Query 400])
           800).2)%Z.
Proof.
  destruct (getQueueSize_monotone
              (QueueEstimator.create 10000 2000000000)
              [QueueEstimator.Queued 1000 0; QueueEstimator.Query 400]
              800 64 800 1600) as [Hnonneg _].
  - vm_compute. discriminate.
  - reflexivity.
  - simpl. lia.
  - repeat constructor; simpl; lia.
  - lia.
  - lia.
  - exact Hnonneg.
Defined.

(** ** Transmit queue space *)

Lemma to_int32_in_range (z : Z) : - 2 ^ 31 <= z < 2 ^ 31 -> to_int32 z = z.
Proof.
  intros Hz. unfold to_int32, wrap32.
  destruct (decide (z mod 2 ^ 32 < 2 ^ 31)) as [Hlt|Hge];
    revert Hz; try revert Hlt; try revert Hge;
    change (2 ^ 32) with 4294967296; change (2 ^ 31) with 2147483648;
    intros; Z.div_mod_to_equations; lia.
Qed.

Section QueueSpace.

Context `{K : DpdkConstants}.

Import DpdkDriver.


End QueueSpace.


(** ** The threshold derived by the constructor *)

Lemma double_to_uint32_drain (B : Z) :
  DpdkDriver.double_to_uint32
    (inject_Z B * inject_Z Driver.MAX_DRAIN_TIME / 8)%Q
  = let z := B * Driver.MAX_DRAIN_TIME / 8 in
    wrap32 (if decide (- 2 ^ 63 <= z < 2 ^ 63) then z else - 2 ^ 63).
Proof.
  unfold DpdkDriver.double_to_uint32, Driver.MAX_DRAIN_TIME.
  assert (Qfloor (inject_Z B * inject_Z 2000 / 8) = B * 2000 / 8) as Hfl.
  { unfold Qfloor, Qdiv, Qmult, Qinv, inject_Z. simpl.
    f_equal. lia. }
  assert (Qceiling (inject_Z B * inject_Z 2000 / 8) = B * 2000 / 8) as Hce.
  { unfold Qceiling, Qfloor, Qopp, Qdiv, Qmult, Qinv, inject_Z. simpl.
    Z.div_mod_to_equations. lia. }
  rewrite Hfl, Hce. by destruct (Qlt_le_dec _ 0).
Qed.

Section Threshold.

Context `{K : DpdkConstants}.

Import DpdkDriver.

Hypothesis payload_size_sane : 14 <= MAX_PAYLOAD_SIZE < 2 ^ 31.

Lemma getMaxPacketSize_exact (d : t) :
  getMaxPacketSize d = MAX_PAYLOAD_SIZE - 14.
Proof.
  unfold getMaxPacketSize, wrap32, NetUtil.sizeof_EthernetHeader.
  apply Z.mod_small. lia.
Qed.

Lemma deriveMaxTransmitQueueSize_spec (B : Z) (d : t) :
  0 <= B * Driver.MAX_DRAIN_TIME / 8 < 2 ^ 32 ->
  deriveMaxTransmitQueueSize B
  = Z.max (B * Driver.MAX_DRAIN_TIME / 8) (2 * getMaxPacketSize d).
Proof.
  intros HB. rewrite getMaxPacketSize_exact.
  assert (double_to_uint32
            (inject_Z B * inject_Z Driver.MAX_DRAIN_TIME / 8)%Q
          = wrap32 (B * Driver.MAX_DRAIN_TIME / 8)) as Hcast.
  { rewrite double_to_uint32_drain. cbv zeta.
    destruct (decide (- 2 ^ 63 <= B * Driver.MAX_DRAIN_TIME / 8 < 2 ^ 63));
      [reflexivity | lia]. }
  unfold deriveMaxTransmitQueueSize. rewrite Hcast.
  unfold NetUtil.sizeof_EthernetHeader.
  assert (wrap32 (2 * wrap32 (MAX_PAYLOAD_SIZE - 14))
          = 2 * (MAX_PAYLOAD_SIZE - 14)) as ->.
  { unfold wrap32. rewrite (Z.mod_small (MAX_PAYLOAD_SIZE - 14)) by lia.
    apply Z.mod_small. lia. }
  assert (wrap32 (B * Driver.MAX_DRAIN_TIME / 8)
          = B * Driver.MAX_DRAIN_TIME / 8) as ->
    by (apply Z.mod_small; lia).
  destruct (decide _); lia.
Qed.

Lemma create_inv (sl : option ServiceLocator.t) (env : Environment) (d : t) :
  create sl env = Ok d ->
  maxTransmitQueueSize d = deriveMaxTransmitQueueSize (bandwidthGbps d) /\
  match sl with
  | None => bandwidthGbps d = 10
  | Some l =>
      match ServiceLocator.getOptionInt l "gbs" with
      | Ok b => bandwidthGbps d = b
      | Throw (NoSuchKeyException _) => bandwidthGbps d = 10
      | _ => False
      end
  end.
Proof.
  unfold create. intros Hc. inv_bind Hc.
  destruct a as [[[ls lm] pid] B].
  assert (bandwidthGbps d = B /\
          maxTransmitQueueSize d = deriveMaxTransmitQueueSize B) as [-> ->].
  { destruct (mempoolCreated env); simpl in Hc; [|discriminate].
    destruct (decide _); [discriminate|].
    destruct (match lm with Some _ => _ | None => _ end) as [m s].
    destruct (linkStatus env); simpl in Hc; [|discriminate].
    destruct (mtuAccepted env); simpl in Hc; [|discriminate].
    destruct (ringCreated env); simpl in Hc; [|discriminate].
    inversion Hc; subst. simpl. auto. }
  split; [reflexivity|].
  destruct sl as [l|]; [|inversion Ha; reflexivity].
  apply obind_Ok in Ha as ([[lm' pid'] B'] & Hp & Ha). inversion Ha; subst.
  unfold parseLocator in Hp.
  apply obind_Ok in Hp as (m1 & _ & Hp).
  apply obind_Ok in Hp as (p1 & _ & Hp).
  apply obind_Ok in Hp as (b1 & Hgbs & Hp).
  inversion Hp; subst.
  unfold catchNoSuchKey in Hgbs.
  destruct (ServiceLocator.getOptionInt l "gbs") as [b|e|s];
    [|destruct e|]; inversion Hgbs; subst; reflexivity.
Qed.

(** C5, as the code has it.  A driver that was constructed for a bandwidth
    of [B] Gbit/s (the [gbs] option of its locator, 10 when there is no
    locator or no such option), where [B * MAX_DRAIN_TIME / 8] fits the
    [uint32_t] that holds the threshold, has a maximum transmit queue size
    of [B * MAX_DRAIN_TIME / 8] bytes, unless that is below twice
    [getMaxPacketSize()], in which case it is exactly twice
    [getMaxPacketSize()]. *)
Theorem maxTransmitQueueSize_derived :
  forall (sl : option ServiceLocator.t) (env : Environment) (d : t),
    create sl env = Ok d ->
    let B := bandwidthGbps d in
    0 <= B * Driver.MAX_DRAIN_TIME / 8 < 2 ^ 32 ->
    match sl with
    | None => B = 10
    | Some l =>
        match ServiceLocator.getOptionInt l "gbs" with
        | Ok b => B = b
        | Throw (NoSuchKeyException _) => B = 10
        | _ => False
        end
    end /\
    maxTransmitQueueSize d
      = (if decide (B * Driver.MAX_DRAIN_TIME / 8 < 2 * getMaxPacketSize d)
         then 2 * getMaxPacketSize d
         else B * Driver.MAX_DRAIN_TIME / 8).
Proof.
  intros sl env d Hc B HB. apply create_inv in Hc as [Hd Hb].
  split; [exact Hb|].
  rewrite Hd. fold B. rewrite (deriveMaxTransmitQueueSize_spec _ d HB).
  destruct (decide _); lia.
Qed.

End Threshold.

(** As in the unit test of the bandwidth option: 40 Gbit/s give a threshold
    of 10000 bytes. *)
Lemma maxTransmitQueueSize_derived_witness :
  exists d,
    @DpdkDriver.create ethernetConstants
      (Some (Sample.locator "basic+dpdk:gbs=40" [("gbs", "40")]))
      (Sample.environment (Sample.mac x01)) = Ok d /\
    DpdkDriver.maxTransmitQueueSize d = 10000.
Proof.
  assert (exists d,
             @DpdkDriver.create ethernetConstants
               (Some (Sample.locator "basic+dpdk:gbs=40" [("gbs", "40")]))
               (Sample.environment (Sample.mac x01)) = Ok d /\
             DpdkDriver.bandwidthGbps d = 40)
    as (d & Hd & HB40) by (eexists; split; vm_compute; reflexivity).
  exists d. split; [exact Hd|].
  destruct (@maxTransmitQueueSize_derived ethernetConstants
              ltac:(vm_compute; split; [discriminate | reflexivity])
              _ _ d Hd) as [HB Hm].
  - rewrite HB40. vm_compute. split; [discriminate | reflexivity].
  - rewrite Hm, HB40. vm_compute. reflexivity.
Defined.

(** The claim without the restriction.  With [gbs=-1] the constructor
    returns a driver; [-1 * MAX_DRAIN_TIME / 8] is below twice
    [getMaxPacketSize()], and yet the threshold is not twice
    [getMaxPacketSize()] but [2 ^ 32 - 250], what the conversion of -250.0
    to [uint32_t] leaves.  With [gbs=17179870] the constructor returns a
    driver as well; [B * MAX_DRAIN_TIME / 8] is 4294967500, not below twice
    [getMaxPacketSize()], and the threshold, a [uint32_t], is not that
    number. *)
Lemma maxTransmitQueueSize_out_of_range_counterexample :
  (exists d,
      @DpdkDriver.create ethernetConstants
        (Some (Sample.locator "basic+dpdk:gbs=-1" [("gbs", "-1")]))
        (Sample.environment (Sample.mac x01)) = Ok d /\
      DpdkDriver.bandwidthGbps d = -1 /\
      DpdkDriver.bandwidthGbps d * Driver.MAX_DRAIN_TIME / 8
        < 2 * @DpdkDriver.getMaxPacketSize ethernetConstants d /\
      DpdkDriver.maxTransmitQueueSize d = 4294967046 /\
      DpdkDriver.maxTransmitQueueSize d
        <> 2 * @DpdkDriver.getMaxPacketSize ethernetConstants d) /\
  (exists d,
      @DpdkDriver.create ethernetConstants
        (Some (Sample.locator "basic+dpdk:gbs=17179870" [("gbs", "17179870")]))
        (Sample.environment (Sample.mac x01)) = Ok d /\
      DpdkDriver.bandwidthGbps d = 17179870 /\
      ~ DpdkDriver.bandwidthGbps d * Driver.MAX_DRAIN_TIME / 8
          < 2 * @DpdkDriver.getMaxPacketSize ethernetConstants d /\
      DpdkDriver.maxTransmitQueueSize d
        <> DpdkDriver.bandwidthGbps d * Driver.MAX_DRAIN_TIME / 8).
Proof.
  split; eexists; (split; [vm_compute; reflexivity|]);
    repeat split; vm_compute; congruence.
Qed.

(** ** Errors of [newAddress] *)

Section NewAddress.

Import Address.

Lemma readOption_absent (sl : ServiceLocator.t) (o : string * OptionType) :
  absent sl o -> readOption sl o = Throw (NoSuchKeyException o.1).
Proof.
  unfold absent, readOption, ServiceLocator.getOptionInt,
    ServiceLocator.getOption.
  intros ->. destruct o.2; reflexivity.
Qed.

Lemma readOption_malformed (sl : ServiceLocator.t) (o : string * OptionType) :
  malformed sl o -> readOption sl o = Throw (BadValueException o.1).
Proof.
  unfold malformed, readOption, ServiceLocator.getOptionInt,
    ServiceLocator.getOption, MacAddress.fromString, wellFormed.
  intros (v & -> & Hbad). destruct o.2; simpl.
  - by destruct Hbad.
  - destruct (ServiceLocator.parseInt v); [destruct Hbad; eauto | reflexivity].
  - destruct (MacAddress.parse v); [destruct Hbad; eauto | reflexivity].
Qed.

Lemma readOption_cases (sl : ServiceLocator.t) (o : string * OptionType) :
  absent sl o \/ malformed sl o \/ exists v, readOption sl o = Ok v.
Proof.
  unfold absent, malformed, readOption, ServiceLocator.getOptionInt,
    ServiceLocator.getOption, MacAddress.fromString, wellFormed.
  destruct (ServiceLocator.options sl !! o.1) as [v|]; [|by left].
  right. destruct o.2; simpl.
  - right. eauto.
  - destruct (ServiceLocator.parseInt v) as [n|] eqn:Hp; simpl.
    + right. eauto.
    + left. exists v. split; [reflexivity|]. rewrite Hp.
      intros [? ?]. discriminate.
  - destruct (MacAddress.parse v) as [m|] eqn:Hp; simpl.
    + right. eauto.
    + left. exists v. split; [reflexivity|]. rewrite Hp.
      intros [? ?]. discriminate.
Qed.

Lemma readOption_Ok (sl : ServiceLocator.t) (o : string * OptionType)
    (v : OptionValue) :
  readOption sl o = Ok v -> ~ absent sl o /\ ~ malformed sl o.
Proof.
  intros Hr. split; intros Hbad.
  - rewrite readOption_absent in Hr by exact Hbad. discriminate.
  - rewrite readOption_malformed in Hr by exact Hbad. discriminate.
Qed.

(** C8.  For every backend (the locator options it requires) and every
    locator: when a required option is absent and none is malformed,
    [newAddress] throws a [NoSuchKeyException]; when every required option
    is present and one is malformed, it throws a [BadValueException];
    whenever it throws, the exception names a required option, and its
    kind tells what is wrong with that option: a [NoSuchKeyException] an
    absent one, a [BadValueException] one that is present and malformed.
    The two kinds differ, whatever the message. *)
Theorem newAddress_error_kinds :
  forall (required : list (string * OptionType)) (sl : ServiceLocator.t),
    (Exists (absent sl) required ->
     Forall (fun o => ~ malformed sl o) required ->
     exists key, newAddress required sl = Throw (NoSuchKeyException key) /\
                 kindOf (NoSuchKeyException key) = MissingOption) /\
    (Forall (fun o => ~ absent sl o) required ->
     Exists (malformed sl) required ->
     exists key, newAddress required sl = Throw (BadValueException key) /\
                 kindOf (BadValueException key) = MalformedOption) /\
    (forall e, newAddress required sl = Throw e ->
       exists o, o ∈ required /\
         ((e = NoSuchKeyException o.1 /\ absent sl o) \/
          (e = BadValueException o.1 /\ malformed sl o))) /\
    MissingOption <> MalformedOption.
Proof.
  intros required sl.
  split; [|split; [|split; [|discriminate]]].
  - induction required as [|o rest IH]; intros Hex Hall.
    + by apply Exists_nil in Hex.
    + apply Forall_cons in Hall as [Ho Hall]. simpl.
      destruct (readOption_cases sl o) as [Ha|[Hm|[v Hv]]].
      * rewrite readOption_absent by exact Ha. simpl. eauto.
      * by destruct Ho.
      * rewrite Hv. simpl. apply readOption_Ok in Hv as [Hna _].
        apply Exists_cons in Hex as [Ha|Hex]; [by destruct Hna|].
        destruct (IH Hex Hall) as (key & -> & Hk). simpl. eauto.
  - induction required as [|o rest IH]; intros Hall Hex.
    + by apply Exists_nil in Hex.
    + apply Forall_cons in Hall as [Ho Hall]. simpl.
      destruct (readOption_cases sl o) as [Ha|[Hm|[v Hv]]].
      * by destruct Ho.
      * rewrite readOption_malformed by exact Hm. simpl. eauto.
      * rewrite Hv. simpl. apply readOption_Ok in Hv as [_ Hnm].
        apply Exists_cons in Hex as [Hm|Hex]; [by destruct Hnm|].
        destruct (IH Hall Hex) as (key & -> & Hk). simpl. eauto.
  - induction required as [|o rest IH]; simpl; intros e He; [discriminate|].
    destruct (readOption_cases sl o) as [Ha|[Hm|[v Hv]]].
    + rewrite readOption_absent in He by exact Ha. inversion He; subst.
      exists o. split; [apply list_elem_of_here | left; auto].
    + rewrite readOption_malformed in He by exact Hm. inversion He; subst.
      exists o. split; [apply list_elem_of_here | right; auto].
    + rewrite Hv in He. simpl in He.
      destruct (newAddress rest sl) as [vs|e'|s]; simpl in He;
        [discriminate| |discriminate].
      inversion He; subst.
      destruct (IH e eq_refl) as (o' & Hin & Hcase).
      exists o'. split; [by apply list_elem_of_further | exact Hcase].
Qed.

End NewAddress.

(** A locator without [mac] for the hardware-address backend. *)
Lemma newAddress_error_kinds_witness :
  exists key,
    Address.newAddress Address.dpdkOptions
      (Sample.locator "basic+dpdk:devport=0" [("devport", "0")])
    = Throw (NoSuchKeyException key).
Proof.
  destruct (newAddress_error_kinds Address.dpdkOptions
              (Sample.locator "basic+dpdk:devport=0" [("devport", "0")]))
    as (Hmissing & _).
  destruct Hmissing as (key & Hkey & _).
  - apply Exists_cons_hd. reflexivity.
  - apply Forall_cons. split; [|constructor].
    intros (v & Hv & _). vm_compute in Hv. discriminate.
  - exists key. exact Hkey.
Defined.

(** ** Sending *)

Lemma MacAddress_eqb_eq (m n : MacAddress.t) :
  MacAddress.eqb m n = true <-> m = n.
Proof.
  unfold MacAddress.eqb. rewrite bool_decide_eq_true.
  split; [|by intros ->].
  destruct m, n; unfold MacAddress.address; simpl. congruence.
Qed.

Lemma EthernetHeader_length (h : NetUtil.EthernetHeader) :
  length (NetUtil.bytes h) = 14%nat.
Proof. reflexivity. Qed.

Section Sending.

Context `{K : DpdkConstants}.

Import DpdkDriver.

Lemma copyChunks_concat (written : list byte) (payload : Iterator) :
  copyChunks written payload = written ++ concat payload.
Proof.
  induction payload as [|chunk rest IH] in written |- *; simpl.
  - by rewrite app_nil_r.
  - rewrite IH. by rewrite <- app_assoc.
Qed.

Lemma totalLength_exact (header : list byte) (payload : option Iterator) :
  packetLength header payload < 2 ^ 32 ->
  wrap32 (Z.of_nat (length header) +
          match payload with
          | Some it => Iterator_size it
          | None => 0
          end) = packetLength header payload.
Proof.
  unfold packetLength, payloadBytes, Iterator_size, wrap32. intros Hlt.
  destruct payload as [it|]; simpl in *.
  - rewrite (Z.mod_small (Z.of_nat (length (concat it)))) by lia.
    apply Z.mod_small. lia.
  - apply Z.mod_small. lia.
Qed.

Lemma frameFor_length (d : t) (a : MacAddress.t) (header : list byte)
    (payload : option Iterator) :
  rte_pktmbuf_data_len (frameFor d a header payload)
    = packetLength header payload + 14.
Proof.
  unfold rte_pktmbuf_data_len, frameFor, packetLength. simpl.
  rewrite !length_app. lia.
Qed.

(** The assertion of [sendPacket] fails when header and payload exceed
    [MAX_PAYLOAD_SIZE]. *)
Lemma sendPacket_too_long (d : t) (a : MacAddress.t) (header : list byte)
    (payload : option Iterator) (now : Z) :
  MAX_PAYLOAD_SIZE < packetLength header payload < 2 ^ 32 ->
  sendPacket d a header payload now = Halt AssertionFailed.
Proof.
  intros [Hgt Hlt]. unfold sendPacket. cbv zeta.
  rewrite totalLength_exact by exact Hlt.
  unfold assert. rewrite bool_decide_eq_false_2 by lia. reflexivity.
Qed.

(** No free mbuf: the packet is dropped with a log message. *)
Lemma sendPacket_no_mbuf (d : t) (a : MacAddress.t) (header : list byte)
    (payload : option Iterator) (now : Z) :
  packetLength header payload <= MAX_PAYLOAD_SIZE ->
  MAX_PAYLOAD_SIZE < 2 ^ 32 ->
  packetPool d = O ->
  sendPacket d a header payload now
    = Ok (LOG "Failed to allocate a packet buffer; dropping packet" d).
Proof.
  intros Hle Hmax Hpool. unfold sendPacket. cbv zeta.
  rewrite totalLength_exact by lia.
  unfold assert. rewrite bool_decide_eq_true_2 by lia. simpl.
  unfold rte_pktmbuf_alloc. rewrite Hpool. reflexivity.
Qed.

(** With a free mbuf the frame is built and passed on, and the estimator
    is told. *)
Lemma sendPacket_sent (d : t) (a : MacAddress.t) (header : list byte)
    (payload : option Iterator) (now : Z) (n : nat) :
  constantsSane ->
  packetLength header payload <= MAX_PAYLOAD_SIZE ->
  packetPool d = S n ->
  sendPacket d a header payload now =
    let d1 := set_packetPool n d in
    let m := frameFor d a header payload in
    let d2 := if MacAddress.eqb a (localMac d)
              then rte_ring_enqueue d1 m else rte_eth_tx_burst d1 m in
    Ok (set_queueEstimator
          (QueueEstimator.packetQueued (queueEstimator d2)
             (packetLength header payload) now) d2).
Proof.
  intros (Hmin & Hroom & H16) Hle Hpool.
  assert (0 <= packetLength header payload) as H0
      by (unfold packetLength; lia).
  unfold sendPacket. cbv zeta.
  rewrite totalLength_exact by lia.
  set (T := packetLength header payload) in *.
  unfold assert. rewrite bool_decide_eq_true_2 by lia. cbn [obind].
  unfold rte_pktmbuf_alloc. rewrite Hpool.
  assert (wrap32 (T + NetUtil.sizeof_EthernetHeader) = T + 14) as ->.
  { unfold wrap32, NetUtil.sizeof_EthernetHeader. apply Z.mod_small. lia. }
  unfold downCast, assert. rewrite bool_decide_eq_true_2 by lia.
  cbn [obind].
  unfold rte_pktmbuf_append, rte_pktmbuf_data_len. cbn [pkt_data length app].
  rewrite decide_True by lia.
  rewrite copyChunks_concat. fold (payloadBytes payload).
  cbn [pkt_data localMac set_packetPool].
  assert (length (replicate (Z.to_nat (T + 14)) x00)
          = length ((NetUtil.bytes
                       {| NetUtil.destAddress := a;
                          NetUtil.srcAddress := localMac d;
                          NetUtil.etherType := FAST |} ++ header)
                      ++ payloadBytes payload)) as Hlen.
  { rewrite length_replicate, !length_app, EthernetHeader_length.
    unfold T, packetLength. lia. }
  unfold store. rewrite decide_True by lia.
  cbn [obind]. rewrite drop_ge by lia.
  rewrite app_nil_r, <- app_assoc. reflexivity.
Qed.

End Sending.

(** ** Receiving *)

Lemma MacAddress_ofRaw_Some (raw : list byte) :
  (6 <= length raw)%nat -> is_Some (MacAddress.ofRaw raw).
Proof.
  intros Hlen. do 6 (destruct raw as [|? raw]; [simpl in Hlen; lia|]).
  simpl. eauto.
Qed.

Section Receiving.

Context `{K : DpdkConstants}.

Import DpdkDriver.

Lemma construct_spec (P : ObjectPool) :
  poolOk P ->
  objects P !! (ObjectPool_construct P).1 = None /\
  objects (ObjectPool_construct P).2
    = <[(ObjectPool_construct P).1 := PacketBuf_new]> (objects P) /\
  poolOk (ObjectPool_construct P).2.
Proof.
  intros (Hnd & Hpool & Hfresh). unfold ObjectPool_construct, poolOk.
  destruct (pool P) as [|a rest] eqn:Hp; simpl.
  - split; [apply Hfresh; lia|]. split; [reflexivity|].
    split; [constructor|]. split.
    + intros a Ha. by apply not_elem_of_nil in Ha.
    + intros a Ha. rewrite lookup_insert_ne by lia. apply Hfresh. lia.
  - apply NoDup_cons in Hnd as [Hnin Hnd].
    split; [apply Hpool; left|]. split; [reflexivity|].
    split; [exact Hnd|]. split.
    + intros b Hb. destruct (Hpool b) as [Hb1 Hb2]; [by right|].
      split; [|exact Hb2]. rewrite lookup_insert_ne; [exact Hb1|].
      intros ->. contradiction.
    + intros b Hb. destruct (Hpool a) as [_ Ha]; [left|].
      rewrite lookup_insert_ne by lia. by apply Hfresh.
Qed.

Lemma store_poolOk (P : ObjectPool) (a : addr) (b : PacketBuf) :
  poolOk P -> is_Some (objects P !! a) -> poolOk (ObjectPool_store P a b).
Proof.
  intros (Hnd & Hpool & Hfresh) [b0 Hb0]. unfold poolOk. simpl.
  split; [exact Hnd|]. split.
  - intros c Hc. destruct (Hpool c Hc) as [Hc1 Hc2].
    split; [|exact Hc2]. rewrite lookup_insert_ne; [exact Hc1|].
    intros ->. congruence.
  - intros c Hc. rewrite lookup_insert_ne; [by apply Hfresh|].
    intros Heq. subst c. rewrite Hfresh in Hb0 by exact Hc. discriminate.
Qed.

Lemma receiveOne_spec (this : addr) (m : rte_mbuf) (d : t)
    (out : list Driver.Received) :
  MAX_PAYLOAD_SIZE < 2 ^ 32 - 14 ->
  poolOk (packetBufPool d) -> frameOk m ->
  exists d' r,
    receiveOne this m d out = Ok (d', out ++ [r]) /\
    carries this d' m r /\
    poolOk (packetBufPool d') /\
    (forall a b, objects (packetBufPool d) !! a = Some b ->
                 objects (packetBufPool d') !! a = Some b) /\
    sameQueues d d'.
Proof.
  intros Hmax Hok [Hlo Hhi]. unfold receiveOne.
  destruct (construct_spec _ Hok) as (Hnone & Hobj & Hok').
  destruct (ObjectPool_construct (packetBufPool d)) as [buffer bufPool].
  simpl in Hnone, Hobj, Hok'.
  unfold rte_pktmbuf_data_len in *.
  destruct (MacAddress_ofRaw_Some (drop 6 (pkt_data m))) as [mac Hmac].
  { rewrite length_drop. lia. }
  unfold NetUtil.sizeof_ether_addr, NetUtil.sizeof_EthernetHeader.
  change (Z.to_nat 6) with 6%nat. rewrite Hmac. cbn [obind].
  assert (wrap32 (Z.of_nat (length (pkt_data m)) - 14)
          = Z.of_nat (length (pkt_data m)) - 14) as ->.
  { unfold wrap32. apply Z.mod_small. lia. }
  unfold copyOut. rewrite decide_True by lia. cbn [obind].
  rewrite take_ge by (rewrite length_drop; lia).
  change (Z.to_nat 14) with 14%nat.
  eexists _, _. split; [reflexivity|].
  split; [|split; [|split]].
  - eexists. split; [reflexivity|]. simpl. rewrite lookup_insert_eq, Hmac.
    reflexivity.
  - simpl. apply store_poolOk; [exact Hok'|].
    rewrite Hobj, lookup_insert_eq. eauto.
  - intros a b Hab. simpl. rewrite Hobj.
    rewrite !lookup_insert_ne; [exact Hab| |];
      intros Heq; subst a; rewrite Hnone in Hab; discriminate.
  - repeat split.
Qed.

Lemma carries_stable (this : addr) (d d' : t) (m : rte_mbuf)
    (r : Driver.Received) :
  (forall a b, objects (packetBufPool d) !! a = Some b ->
               objects (packetBufPool d') !! a = Some b) ->
  carries this d m r -> carries this d' m r.
Proof. intros Hsub (p & Hr & Hp). exists p. auto. Qed.

Lemma processPackets_spec (this : addr) (mPkts : list rte_mbuf) (d : t)
    (out : list Driver.Received) :
  MAX_PAYLOAD_SIZE < 2 ^ 32 - 14 ->
  poolOk (packetBufPool d) -> Forall frameOk mPkts ->
  exists d' rs,
    processPackets this mPkts d out = Ok (d', out ++ rs) /\
    Forall2 (carries this d') mPkts rs /\
    poolOk (packetBufPool d') /\
    (forall a b, objects (packetBufPool d) !! a = Some b ->
                 objects (packetBufPool d') !! a = Some b) /\
    sameQueues d d'.
Proof.
  intros Hmax.
  induction mPkts as [|m rest IH] in d, out |- *; intros Hok Hfr; simpl.
  - exists d, []. rewrite app_nil_r.
    split; [reflexivity|]. split; [constructor|]. split; [exact Hok|].
    split; [auto|]. unfold sameQueues. auto 10.
  - apply Forall_cons in Hfr as [Hm Hrest].
    destruct (receiveOne_spec this m d out Hmax Hok Hm)
      as (d1 & r & -> & Hcar & Hok1 & Hsub1 & Hq1).
    cbn [obind].
    destruct (IH d1 (out ++ [r]) Hok1 Hrest)
      as (d' & rs & -> & Hall & Hok' & Hsub' & Hq').
    exists d', (r :: rs). rewrite <- app_assoc. simpl.
    split; [reflexivity|]. split; [|split; [exact Hok'|split]].
    + constructor; [|exact Hall]. by apply (carries_stable this d1).
    + auto.
    + destruct Hq1 as (? & ? & ? & ? & ? & ?).
      destruct Hq' as (? & ? & ? & ? & ? & ?).
      repeat split; congruence.
Qed.

Lemma dequeueLoopback_spec (n : nat) (d : t) (mPkts : list rte_mbuf) :
  (n <= length (loopbackRing d))%nat ->
  dequeueLoopback n d mPkts
    = (set_loopbackRing (drop n (loopbackRing d)) d,
       mPkts ++ take n (loopbackRing d)).
Proof.
  induction n as [|n IH] in d, mPkts |- *; intros Hn; simpl.
  - rewrite app_nil_r. by destruct d.
  - unfold rte_ring_dequeue.
    destruct (loopbackRing d) as [|m rest] eqn:Hring; [simpl in Hn; lia|].
    rewrite IH by (simpl in *; lia). simpl.
    by rewrite <- app_assoc.
Qed.

(** One call of [receivePackets] appends one envelope for each of the
    mbufs it takes, in that order, each carrying its frame. *)
Lemma receivePackets_spec (this : addr) (d : t) (maxPackets : Z)
    (out : list Driver.Received) :
  MAX_PAYLOAD_SIZE < 2 ^ 32 - 14 ->
  poolOk (packetBufPool d) -> queuesOk d ->
  exists d' rs,
    receivePackets this d maxPackets out = Ok (d', out ++ rs) /\
    Forall2 (carries this d') (taken d) rs /\
    poolOk (packetBufPool d') /\
    rxQueue d' = drop 16 (rxQueue d) /\
    loopbackRing d'
      = drop (32 - length (take 16 (rxQueue d))) (loopbackRing d) /\
    txQueue d' = txQueue d.
Proof.
  intros Hmax Hok [Hrx Hring]. unfold receivePackets, rte_eth_rx_burst.
  cbv zeta. unfold MAX_PACKETS_AT_ONCE, rte_ring_count.
  change (Z.to_nat (32 / 2)) with 16%nat.
  cbn [loopbackRing set_rxQueue].
  set (incoming := take 16 (rxQueue d)).
  assert (length incoming <= 16)%nat as Hinc
      by (unfold incoming; rewrite length_take; lia).
  set (n := Z.to_nat
              (if decide (Z.of_nat (length incoming)
                          + Z.of_nat (length (loopbackRing d)) > 32)
               then 32 - Z.of_nat (length incoming)
               else Z.of_nat (length (loopbackRing d)))).
  assert (n = (32 - length incoming) `min` length (loopbackRing d))%nat
    as Hn by (unfold n; destruct (decide _); lia).
  rewrite dequeueLoopback_spec by (cbn [loopbackRing set_rxQueue]; lia).
  cbn [loopbackRing set_rxQueue].
  assert (take n (loopbackRing d)
          = take (32 - length incoming) (loopbackRing d)) as Htake.
  { rewrite Hn. destruct (decide (32 - length incoming
                                  <= length (loopbackRing d))%nat).
    - by rewrite Nat.min_l by lia.
    - rewrite Nat.min_r by lia. by rewrite !take_ge by lia. }
  assert (drop n (loopbackRing d)
          = drop (32 - length incoming) (loopbackRing d)) as Hdrop.
  { rewrite Hn. destruct (decide (32 - length incoming
                                  <= length (loopbackRing d))%nat).
    - by rewrite Nat.min_l by lia.
    - rewrite Nat.min_r by lia. by rewrite !drop_ge by lia. }
  rewrite Htake, Hdrop.
  match goal with
  | |- context [processPackets this ?l ?d0 out] =>
      destruct (processPackets_spec this l d0 out Hmax)
        as (d' & rs & Hrun & Hall & Hok' & _ & Hq)
  end.
  - exact Hok.
  - apply Forall_app. split.
    + unfold incoming. by apply Forall_take.
    + by apply Forall_take.
  - exists d', rs. split; [exact Hrun|]. split.
    + eapply Forall2_impl; [exact Hall|]. auto.
    + destruct Hq as (Hq1 & Hq2 & Hq3 & _).
      split; [exact Hok'|]. split; [exact Hq1|]. split; [exact Hq2|].
      exact Hq3.
Qed.

(** A poll that finds nothing returns at once and changes nothing. *)
Lemma receivePackets_nothing_arrived (this : addr) (d : t) (maxPackets : Z)
    (out : list Driver.Received) :
  rxQueue d = [] -> loopbackRing d = [] ->
  receivePackets this d maxPackets out = Ok (d, out).
Proof.
  intros Hrx Hring. unfold receivePackets, rte_eth_rx_burst, rte_ring_count.
  cbn [loopbackRing set_rxQueue]. rewrite Hrx, Hring.
  unfold MAX_PACKETS_AT_ONCE. change (Z.to_nat (32 / 2)) with 16%nat.
  simpl. destruct d. simpl in *. by subst.
Qed.

(** The batch of a poll is bounded by 32, not by [maxPackets]. *)
Lemma receivePackets_batch (this : addr) (d d' : t) (maxPackets : Z)
    (out out' : list Driver.Received) :
  MAX_PAYLOAD_SIZE < 2 ^ 32 - 14 ->
  poolOk (packetBufPool d) -> queuesOk d ->
  receivePackets this d maxPackets out = Ok (d', out') ->
  length out' = (length out + length (taken d))%nat /\
  (length (taken d) <= 32)%nat.
Proof.
  intros Hmax Hok Hq Hr.
  destruct (receivePackets_spec this d maxPackets out Hmax Hok Hq)
    as (d1 & rs & Hr' & Hall & _).
  rewrite Hr in Hr'. inversion Hr'; subst.
  apply Forall2_length in Hall. rewrite length_app. split; [lia|].
  unfold taken. rewrite length_app, !length_take. lia.
Qed.

End Receiving.

(** ** From [sendPacket] to [receivePackets] *)

Section RoundTrip.

Context `{K : DpdkConstants}.

Import DpdkDriver.

Lemma frameFor_content (d : t) (a : MacAddress.t) (header : list byte)
    (payload : option Iterator) :
  drop 14 (pkt_data (frameFor d a header payload))
    = header ++ payloadBytes payload.
Proof. reflexivity. Qed.

Lemma frameFor_source (d : t) (a : MacAddress.t) (header : list byte)
    (payload : option Iterator) :
  MacAddress.ofRaw (drop 6 (pkt_data (frameFor d a header payload)))
    = Some (localMac d).
Proof. destruct (localMac d) eqn:Hm. unfold frameFor. rewrite Hm. reflexivity. Qed.

Lemma frameFor_ok (d : t) (a : MacAddress.t) (header : list byte)
    (payload : option Iterator) :
  packetLength header payload <= MAX_PAYLOAD_SIZE ->
  frameOk (frameFor d a header payload).
Proof.
  intros Hle. unfold frameOk. rewrite frameFor_length.
  unfold packetLength in *. lia.
Qed.

Lemma carries_contents (this : addr) (d : t) (m : rte_mbuf)
    (r : Driver.Received) :
  carries this d m r -> 14 <= rte_pktmbuf_data_len m ->
  Driver.len r = rte_pktmbuf_data_len m - 14 /\
  contents d r = Some (drop 14 (pkt_data m)) /\
  senderOf d r = MacAddress.ofRaw (drop 6 (pkt_data m)).
Proof.
  intros (p & -> & Hp) Hlen. unfold contents, senderOf. simpl.
  rewrite Hp. simpl. split; [reflexivity|]. split; [|reflexivity].
  rewrite take_ge; [reflexivity|].
  unfold rte_pktmbuf_data_len in *. rewrite length_drop. lia.
Qed.

(** What a delivered frame of [sendPacket] looks like to the transport. *)
Lemma carries_frameFor (this : addr) (d d' : t) (a : MacAddress.t)
    (header : list byte) (payload : option Iterator) (r : Driver.Received) :
  carries this d' (frameFor d a header payload) r ->
  Driver.len r = packetLength header payload /\
  contents d' r = Some (header ++ payloadBytes payload) /\
  senderOf d' r = Some (localMac d).
Proof.
  intros Hc. apply carries_contents in Hc.
  - rewrite frameFor_length, frameFor_content, frameFor_source in Hc.
    destruct Hc as (Hl & Hc & Hs). split; [lia | auto].
  - rewrite frameFor_length. unfold packetLength. lia.
Qed.

End RoundTrip.

Section RoundTripTheorems.

Context `{K : DpdkConstants}.

Import DpdkDriver.

Hypothesis sane : constantsSane.

Lemma getMaxPacketSize_sane (d : t) :
  getMaxPacketSize d = MAX_PAYLOAD_SIZE - 14.
Proof.
  destruct sane as (H1 & H2 & H3).
  unfold getMaxPacketSize, wrap32, NetUtil.sizeof_EthernetHeader.
  apply Z.mod_small. lia.
Qed.

Lemma loopback_roundtrip (this : addr) (a : t) (header : list byte)
    (payload : option Iterator) (now maxPackets : Z)
    (out : list Driver.Received) :
  packetLength header payload <= getMaxPacketSize a ->
  packetPool a <> O ->
  poolOk (packetBufPool a) -> queuesOk a ->
  (length (taken a) < 32)%nat ->
  exists a1 a2 rs r,
    sendPacket a (localMac a) header payload now = Ok a1 /\
    txQueue a1 = txQueue a /\
    loopbackRing a1 = loopbackRing a ++ [frameFor a (localMac a) header payload] /\
    receivePackets this a1 maxPackets out = Ok (a2, out ++ rs ++ [r]) /\
    Driver.len r = packetLength header payload /\
    contents a2 r = Some (header ++ payloadBytes payload) /\
    senderOf a2 r = Some (localMac a).
Proof.
  intros Hlen Hpool Hok [Hrx Hring] Htaken.
  rewrite getMaxPacketSize_sane in Hlen.
  destruct sane as (Hs1 & Hs2 & Hs3).
  destruct (packetPool a) as [|n] eqn:Hn; [done|].
  set (f := frameFor a (localMac a) header payload).
  assert (length (take 16 (rxQueue a)) + length (loopbackRing a) < 32)%nat
    as Hroom.
  { unfold taken in Htaken. rewrite length_app, !length_take in Htaken.
    rewrite length_take. lia. }
  pose proof (sendPacket_sent a (localMac a) header payload now n sane
                ltac:(lia) Hn) as Hsend.
  cbv zeta in Hsend.
  rewrite (proj2 (MacAddress_eqb_eq _ _) eq_refl) in Hsend.
  unfold rte_ring_enqueue in Hsend. cbn [loopbackRing set_packetPool] in Hsend.
  rewrite decide_True in Hsend by (unfold LOOPBACK_RING_COUNT; lia).
  fold f in Hsend.
  match type of Hsend with _ = Ok ?x => set (a1 := x) in * end.
  assert (taken a1 = taken a ++ [f]) as Htk.
  { unfold taken, a1. cbn [rxQueue loopbackRing set_queueEstimator
                             set_loopbackRing set_packetPool].
    rewrite take_app_ge by lia.
    rewrite (take_ge [f]) by (simpl; lia).
    rewrite (take_ge (loopbackRing a)) by lia.
    by rewrite app_assoc. }
  assert (MAX_PAYLOAD_SIZE < 2 ^ 32 - 14) as Hmax by lia.
  destruct (receivePackets_spec this a1 maxPackets out Hmax)
    as (a2 & rs0 & Hrecv & Hall & _).
  - exact Hok.
  - split; [exact Hrx|]. unfold a1. cbn [loopbackRing set_queueEstimator
                                           set_loopbackRing set_packetPool].
    apply Forall_app. split; [exact Hring|].
    constructor; [|constructor]. apply frameFor_ok. lia.
  - rewrite Htk in Hall.
    apply Forall2_app_inv_l in Hall as (rs & rlast & _ & Hlast & ->).
    apply Forall2_cons_inv_l in Hlast as (r & rnil & Hr & Hnil & ->).
    apply Forall2_nil_inv_l in Hnil as ->.
    apply carries_frameFor in Hr as (Hl & Hc & Hsnd).
    exists a1, a2, rs, r.
    split; [exact Hsend|]. split; [reflexivity|]. split; [reflexivity|].
    split; [exact Hrecv|]. auto.
Qed.

Lemma peer_roundtrip (this : addr) (a b : t) (header : list byte)
    (payload : option Iterator) (now maxPackets : Z)
    (out : list Driver.Received) :
  packetLength header payload <= getMaxPacketSize a ->
  packetPool a <> O ->
  localMac b <> localMac a -> txQueue a = [] -> (0 < NDESC)%nat ->
  packetPool b <> O -> poolOk (packetBufPool b) -> queuesOk b ->
  (length (rxQueue b) < 16)%nat ->
  exists a1 a2 b1 b2 rs r,
    sendPacket a (localMac b) header payload now = Ok a1 /\
    loopbackRing a1 = loopbackRing a /\
    txQueue a1 = [frameFor a (localMac b) header payload] /\
    wire a1 b = (a2, b1) /\
    receivePackets this b1 maxPackets out = Ok (b2, out ++ rs) /\
    rs !! length (rxQueue b) = Some r /\
    Driver.len r = packetLength header payload /\
    contents b2 r = Some (header ++ payloadBytes payload) /\
    senderOf b2 r = Some (localMac a).
Proof.
  intros Hlen Hpool Hne Htx Hdesc Hpoolb Hok [Hrx Hring] Hfew.
  rewrite getMaxPacketSize_sane in Hlen.
  destruct sane as (Hs1 & Hs2 & Hs3).
  destruct (packetPool a) as [|n] eqn:Hn; [done|].
  destruct (packetPool b) as [|nb] eqn:Hnb; [done|].
  set (f := frameFor a (localMac b) header payload).
  pose proof (sendPacket_sent a (localMac b) header payload now n sane
                ltac:(lia) Hn) as Hsend.
  cbv zeta in Hsend.
  destruct (MacAddress.eqb (localMac b) (localMac a)) eqn:Heqb.
  { apply MacAddress_eqb_eq in Heqb. contradiction. }
  unfold rte_eth_tx_burst in Hsend. cbn [txQueue set_packetPool] in Hsend.
  rewrite Htx in Hsend. rewrite decide_True in Hsend by (simpl; lia).
  fold f in Hsend. cbn [app] in Hsend.
  match type of Hsend with _ = Ok ?x => set (a1 := x) in * end.
  set (b1 := set_rxQueue (rxQueue b ++ [f]) (set_packetPool nb b)).
  assert (wire a1 b = (rte_pktmbuf_free (set_txQueue [] a1), b1)) as Hwire.
  { unfold wire, a1. cbn [txQueue set_queueEstimator set_txQueue].
    rewrite Hnb. reflexivity. }
  assert (MAX_PAYLOAD_SIZE < 2 ^ 32 - 14) as Hmax by lia.
  destruct (receivePackets_spec this b1 maxPackets out Hmax)
    as (b2 & rs & Hrecv & Hall & _).
  - exact Hok.
  - split; [|exact Hring]. unfold b1. cbn [rxQueue set_rxQueue].
    apply Forall_app. split; [exact Hrx|].
    constructor; [|constructor]. apply frameFor_ok. lia.
  - assert (taken b1 !! length (rxQueue b) = Some f) as Hf.
    { unfold taken, b1. cbn [rxQueue loopbackRing set_rxQueue set_packetPool].
      rewrite take_ge by (rewrite length_app; simpl; lia).
      rewrite <- app_assoc. rewrite lookup_app_r by lia.
      by rewrite Nat.sub_diag. }
    destruct (Forall2_lookup_l _ _ _ _ _ Hall Hf) as (r & Hr & Hcar).
    apply carries_frameFor in Hcar as (Hl & Hc & Hsnd).
    exists a1, (rte_pktmbuf_free (set_txQueue [] a1)), b1, b2, rs, r.
    split; [exact Hsend|]. split; [reflexivity|]. split; [reflexivity|].
    split; [exact Hwire|]. split; [exact Hrecv|]. auto.
Qed.

(** C2.  A header and a payload that together are at most
    [getMaxPacketSize()] bytes long come out of [receivePackets] as they
    went into [sendPacket]: the envelope holds the header bytes followed
    by the payload bytes, Ethernet framing stripped, and names the sending
    driver as the sender.  Sent to the driver's own address, the frame
    goes on the loopback ring, the transmit queue of the NIC is left
    alone, and the next poll of the same driver returns the packet (last,
    after what was already waiting).  Sent to a peer, the frame goes to
    the transmit queue, over the wire to the peer's receive queue, and the
    peer's next poll returns it in its place in the order of arrival. *)
Theorem sendPacket_receivePackets_roundtrip :
  forall (thisA thisB : addr) (a b : t) (header : list byte)
         (payload : option Iterator) (now maxPackets : Z)
         (outA outB : list Driver.Received),
    packetLength header payload <= getMaxPacketSize a ->
    packetPool a <> O ->
    (poolOk (packetBufPool a) -> queuesOk a ->
     (length (taken a) < 32)%nat ->
     exists a1 a2 rs r,
       sendPacket a (localMac a) header payload now = Ok a1 /\
       txQueue a1 = txQueue a /\
       loopbackRing a1
         = loopbackRing a ++ [frameFor a (localMac a) header payload] /\
       receivePackets thisA a1 maxPackets outA = Ok (a2, outA ++ rs ++ [r]) /\
       Driver.len r = packetLength header payload /\
       contents a2 r = Some (header ++ payloadBytes payload) /\
       senderOf a2 r = Some (localMac a)) /\
    (localMac b <> localMac a -> txQueue a = [] -> (0 < NDESC)%nat ->
     packetPool b <> O -> poolOk (packetBufPool b) -> queuesOk b ->
     (length (rxQueue b) < 16)%nat ->
     exists a1 a2 b1 b2 rs r,
       sendPacket a (localMac b) header payload now = Ok a1 /\
       loopbackRing a1 = loopbackRing a /\
       txQueue a1 = [frameFor a (localMac b) header payload] /\
       wire a1 b = (a2, b1) /\
       receivePackets thisB b1 maxPackets outB = Ok (b2, outB ++ rs) /\
       rs !! length (rxQueue b) = Some r /\
       Driver.len r = packetLength header payload /\
       contents b2 r = Some (header ++ payloadBytes payload) /\
       senderOf b2 r = Some (localMac a)).
Proof.
  intros thisA thisB a b header payload now maxPackets outA outB Hlen Hpool.
  split.
  - intros. by apply loopback_roundtrip.
  - intros. by apply peer_roundtrip.
Qed.

End RoundTripTheorems.

Lemma ethernetConstants_sane : @DpdkDriver.constantsSane ethernetConstants.
Proof. vm_compute. repeat split; discriminate. Qed.

Lemma ObjectPool_new_ok : DpdkDriver.poolOk DpdkDriver.ObjectPool_new.
Proof.
  split; [constructor|]. split.
  - intros a Ha. by apply not_elem_of_nil in Ha.
  - intros a _. apply lookup_empty.
Qed.

(** The exchange of the driver unit test, first from a driver to itself and
    then between two drivers: ["header:"] and ["This is a sample message"]
    arrive as ["header:This is a sample message"]. *)
Lemma sendPacket_receivePackets_roundtrip_witness :
  let a := Sample.idle (Sample.mac x01) in
  let b := Sample.idle (Sample.mac x02) in
  let header := Sample.bytesOf "header:" in
  let payload := Some [Sample.bytesOf "This is a sample message"] in
  let expected := Some (Sample.bytesOf "header:This is a sample message") in
  (exists a1 a2 rs r,
      @DpdkDriver.sendPacket ethernetConstants a (DpdkDriver.localMac a)
        header payload 0 = Ok a1 /\
      @DpdkDriver.receivePackets ethernetConstants 7%N a1 1 []
        = Ok (a2, rs ++ [r]) /\
      DpdkDriver.contents a2 r = expected) /\
  (exists a1 a2 b1 b2 rs r,
      @DpdkDriver.sendPacket ethernetConstants a (DpdkDriver.localMac b)
        header payload 0 = Ok a1 /\
      DpdkDriver.wire a1 b = (a2, b1) /\
      @DpdkDriver.receivePackets ethernetConstants 8%N b1 1 [] = Ok (b2, rs) /\
      rs !! 0%nat = Some r /\
      DpdkDriver.contents b2 r = expected).
Proof.
  intros a b header payload expected.
  destruct (@sendPacket_receivePackets_roundtrip ethernetConstants
              ethernetConstants_sane 7%N 8%N a b header payload 0 1 [] [])
    as [Hloop Hpeer].
  - vm_compute. discriminate.
  - vm_compute. discriminate.
  - split.
    + destruct Hloop as (a1 & a2 & rs & r & Hs & _ & _ & Hr & _ & Hc & _).
      * exact ObjectPool_new_ok.
      * split; constructor.
      * vm_compute. lia.
      * exists a1, a2, rs, r. auto.
    + destruct Hpeer
        as (a1 & a2 & b1 & b2 & rs & r & Hs & _ & _ & Hw & Hr & Hi & _ & Hc & _).
      * discriminate.
      * reflexivity.
      * vm_compute. lia.
      * vm_compute. discriminate.
      * exact ObjectPool_new_ok.
      * split; constructor.
      * vm_compute. lia.
      * exists a1, a2, b1, b2, rs, r. auto.
Defined.

(** ** What [sendPacket] does when it cannot send *)

Section SendFailures.

Context `{K : DpdkConstants}.

Import DpdkDriver.

Lemma sendPacket_no_throw (d : t) (a : MacAddress.t) (header : list byte)
    (payload : option Iterator) (now : Z) (e : Exception) :
  sendPacket d a header payload now <> Throw e.
Proof.
  unfold sendPacket, assert, downCast, assert, store.
  destruct (bool_decide _); cbn [obind]; [|discriminate].
  destruct (rte_pktmbuf_alloc d) as [[mbuf d1]|]; [|discriminate].
  destruct (bool_decide _); cbn [obind]; [|discriminate].
  destruct (rte_pktmbuf_append _ _) as [mbuf'|]; [|discriminate].
  destruct (decide _); cbn [obind]; discriminate.
Qed.

Hypothesis sane : constantsSane.

(** C4, as the code has it.  [sendPacket] never throws, and it returns
    nothing to its caller.  Header and payload longer than
    [MAX_PAYLOAD_SIZE] fail its assertion, which stops the program.  With
    a length of at most [getMaxPacketSize()]: when no mbuf can be
    allocated, the driver logs one message and returns, its queues and
    its estimator untouched; otherwise it passes one frame on, to the
    loopback ring when the destination is its own address and to the
    transmit queue of the NIC when it is not, logs nothing, and ends by
    recording [packetQueued(totalLength, now)] with the estimator. *)
Theorem sendPacket_never_throws :
  forall (d : t) (a : MacAddress.t) (header : list byte)
         (payload : option Iterator) (now : Z),
    packetLength header payload < 2 ^ 32 ->
    (forall e, sendPacket d a header payload now <> Throw e) /\
    (MAX_PAYLOAD_SIZE < packetLength header payload ->
     sendPacket d a header payload now = Halt AssertionFailed) /\
    (packetLength header payload <= getMaxPacketSize d ->
     packetPool d = O ->
     exists d',
       sendPacket d a header payload now = Ok d' /\
       log d'
         = log d ++ ["Failed to allocate a packet buffer; dropping packet"] /\
       txQueue d' = txQueue d /\ loopbackRing d' = loopbackRing d /\
       queueEstimator d' = queueEstimator d) /\
    (packetLength header payload <= getMaxPacketSize d ->
     packetPool d <> O ->
     exists d',
       sendPacket d a header payload now = Ok d' /\
       log d' = log d /\
       queueEstimator d'
         = QueueEstimator.packetQueued (queueEstimator d)
             (packetLength header payload) now /\
       (if MacAddress.eqb a (localMac d)
        then txQueue d' = txQueue d /\
             loopbackRing d'
               = (if decide (length (loopbackRing d)
                             < LOOPBACK_RING_COUNT - 1)%nat
                  then loopbackRing d ++ [frameFor d a header payload]
                  else loopbackRing d)
        else loopbackRing d' = loopbackRing d /\
             txQueue d'
               = (if decide (length (txQueue d) < NDESC)%nat
                  then txQueue d ++ [frameFor d a header payload]
                  else txQueue d))).
Proof.
  intros d a header payload now H32.
  pose proof (getMaxPacketSize_sane sane d) as Hmax.
  destruct sane as (Hs1 & Hs2 & Hs3).
  split; [intros e; apply sendPacket_no_throw|].
  split; [intros Hgt; apply sendPacket_too_long; lia|].
  split.
  - intros Hle Hpool. eexists. split.
    + apply sendPacket_no_mbuf; [lia | lia | exact Hpool].
    + simpl. auto.
  - intros Hle Hpool. destruct (packetPool d) as [|n] eqn:Hn; [done|].
    eexists. split.
    + apply (sendPacket_sent d a header payload now n sane); [lia | exact Hn].
    + cbv zeta. unfold rte_ring_enqueue, rte_eth_tx_burst.
      cbn [loopbackRing txQueue set_packetPool].
      destruct (MacAddress.eqb a (localMac d));
        destruct (decide _); simpl; auto.
Qed.

End SendFailures.

(** A response of the unit test is sent and recorded; with the mbuf pool
    exhausted it is dropped with a log message. *)
Lemma sendPacket_never_throws_witness :
  let d := Sample.idle (Sample.mac x01) in
  let header := Sample.bytesOf "h:" in
  let payload := Some [Sample.bytesOf "response"] in
  (exists d',
      @DpdkDriver.sendPacket ethernetConstants d (Sample.mac x02)
        header payload 5 = Ok d' /\
      DpdkDriver.log d' = [] /\
      DpdkDriver.queueEstimator d'
        = QueueEstimator.packetQueued (DpdkDriver.queueEstimator d) 10 5) /\
  (exists d',
      @DpdkDriver.sendPacket ethernetConstants
        (DpdkDriver.set_packetPool 0 d) (Sample.mac x02) header payload 5
        = Ok d' /\
      DpdkDriver.txQueue d' = []).
Proof.
  intros d header payload. split.
  - destruct (@sendPacket_never_throws ethernetConstants ethernetConstants_sane
                d (Sample.mac x02) header payload 5)
      as (_ & _ & _ & Hsent).
    + vm_compute. reflexivity.
    + destruct Hsent as (d' & Hs & Hl & Hq & _).
      * vm_compute. discriminate.
      * vm_compute. discriminate.
      * exists d'. auto.
  - destruct (@sendPacket_never_throws ethernetConstants ethernetConstants_sane
                (DpdkDriver.set_packetPool 0 d) (Sample.mac x02)
                header payload 5)
      as (_ & _ & Hdrop & _).
    + vm_compute. reflexivity.
    + destruct Hdrop as (d' & Hs & _ & Ht & _).
      * vm_compute. discriminate.
      * reflexivity.
      * exists d'. auto.
Defined.

(** Too long a packet is not "logged and dropped".  With 1501 bytes, more
    than [MAX_PAYLOAD_SIZE], the call does not return: the assertion
    fails.  With 1490 bytes, more than [getMaxPacketSize()] = 1486 but within
    [MAX_PAYLOAD_SIZE], the packet is sent like any other and nothing is
    logged. *)
Lemma sendPacket_oversize_counterexample :
  let d := Sample.idle (Sample.mac x01) in
  (@DpdkDriver.getMaxPacketSize ethernetConstants d
     < DpdkDriver.packetLength (replicate 1501 x00) None /\
   @DpdkDriver.sendPacket ethernetConstants d (Sample.mac x02)
     (replicate 1501 x00) None 0 = Halt AssertionFailed) /\
  (@DpdkDriver.getMaxPacketSize ethernetConstants d
     < DpdkDriver.packetLength (replicate 1490 x00) None /\
   exists d',
     @DpdkDriver.sendPacket ethernetConstants d (Sample.mac x02)
       (replicate 1490 x00) None 0 = Ok d' /\
     DpdkDriver.log d' = [] /\
     DpdkDriver.txQueue d'
       = [@DpdkDriver.frameFor ethernetConstants d (Sample.mac x02)
            (replicate 1490 x00) None]).
Proof.
  intros d. split; split.
  - vm_compute. reflexivity.
  - vm_compute. reflexivity.
  - vm_compute. reflexivity.
  - eexists. split; [vm_compute; reflexivity|]. split; reflexivity.
Qed.

(** ** How many packets [receivePackets] returns *)

(** C3.  [receivePackets] clamps [maxPackets] to 32 and then never looks at
    it again.  A driver sends two packets to its own address and then asks
    for at most one packet: it appends two envelopes.  Whatever the bound
    asked for, the result of a call is the same. *)
Theorem receivePackets_exceeds_maxPackets :
  let d := Sample.idle (Sample.mac x01) in
  (exists d' r1 r2,
      @DpdkDriver.run ethernetConstants Sample.this
        [DpdkDriver.SendPacket (Sample.mac x01) (Sample.bytesOf "first") None 0;
         DpdkDriver.SendPacket (Sample.mac x01) (Sample.bytesOf "second") None 1;
         DpdkDriver.ReceivePackets 1] (d, [])
        = Ok (d', [r1; r2]) /\
      DpdkDriver.contents d' r1 = Some (Sample.bytesOf "first") /\
      DpdkDriver.contents d' r2 = Some (Sample.bytesOf "second")) /\
  (forall (K : DpdkConstants) (this : addr) (d0 : DpdkDriver.t)
          (m1 m2 : Z) (out : list Driver.Received),
      DpdkDriver.receivePackets this d0 m1 out
        = DpdkDriver.receivePackets this d0 m2 out).
Proof.
  intros d. split.
  - eexists _, _, _. split; [vm_compute; reflexivity|].
    split; vm_compute; reflexivity.
  - reflexivity.
Qed.

(** * Further properties of the DPDK driver *)

(** ** What a poll takes and what it leaves *)

Section Polling.

Context `{K : DpdkConstants}.

Import DpdkDriver.

Lemma receiveOne_Ok (this : addr) (m : rte_mbuf) (d d' : t)
    (out out' : list Driver.Received) :
  receiveOne this m d out = Ok (d', out') ->
  14 <= rte_pktmbuf_data_len m /\
  sameQueues d d' /\ packetPool d' = S (packetPool d).
Proof.
  unfold receiveOne. destruct (ObjectPool_construct _) as [buffer bufPool].
  intros Hr. apply obind_Ok in Hr as (mac & _ & Hr).
  apply obind_Ok in Hr as (bytes & Hcopy & Hr). inversion Hr; subst.
  split; [|split; [unfold sameQueues; simpl; auto 10 | reflexivity]].
  unfold copyOut in Hcopy. destruct (decide _) as [[Hsrc _]|]; [|discriminate].
  unfold rte_pktmbuf_data_len, NetUtil.sizeof_EthernetHeader, wrap32 in *.
  pose proof (Z.mod_pos_bound
                (Z.of_nat (length (pkt_data m)) - 14) (2 ^ 32) eq_refl).
  lia.
Qed.

(** Copying a packet out of an mbuf fails in one way only. *)
Lemma receiveOne_fault (this : addr) (m : rte_mbuf) (d : t)
    (out : list Driver.Received) :
  (exists st, receiveOne this m d out = Ok st) \/
  receiveOne this m d out = Halt MemoryFault.
Proof.
  unfold receiveOne, copyOut.
  destruct (ObjectPool_construct _) as [buffer bufPool].
  destruct (MacAddress.ofRaw _); cbn [obind]; [|by right].
  destruct (decide _); cbn [obind]; [left; eauto | by right].
Qed.

Lemma receiveOne_runt (this : addr) (m : rte_mbuf) (d : t)
    (out : list Driver.Received) :
  rte_pktmbuf_data_len m < 14 ->
  receiveOne this m d out = Halt MemoryFault.
Proof.
  intros Hshort. destruct (receiveOne_fault this m d out) as [[[d' out'] Hok]|Hf];
    [|exact Hf].
  apply receiveOne_Ok in Hok as [Hlen _]. lia.
Qed.

Lemma processPackets_Ok (this : addr) (mPkts : list rte_mbuf) (d d' : t)
    (out out' : list Driver.Received) :
  processPackets this mPkts d out = Ok (d', out') ->
  Forall (fun m => 14 <= rte_pktmbuf_data_len m) mPkts /\
  sameQueues d d' /\
  packetPool d' = (packetPool d + length mPkts)%nat.
Proof.
  induction mPkts as [|m rest IH] in d, out |- *; simpl; intros Hr.
  - inversion Hr; subst. split; [constructor|].
    split; [unfold sameQueues; auto 10 | lia].
  - apply obind_Ok in Hr as ([d1 out1] & H1 & Hr).
    apply receiveOne_Ok in H1 as (Hm & Hq1 & Hp1).
    apply IH in Hr as (Hall & Hq & Hp).
    split; [by constructor|]. split; [|lia].
    destruct Hq1 as (? & ? & ? & ? & ? & ?).
    destruct Hq as (? & ? & ? & ? & ? & ?).
    unfold sameQueues. repeat split; congruence.
Qed.

Lemma processPackets_runt (this : addr) (mPkts : list rte_mbuf) (d : t)
    (out : list Driver.Received) :
  Exists (fun m => rte_pktmbuf_data_len m < 14) mPkts ->
  processPackets this mPkts d out = Halt MemoryFault.
Proof.
  induction mPkts as [|m rest IH] in d, out |- *; intros Hex.
  - by apply Exists_nil in Hex.
  - simpl. destruct (receiveOne_fault this m d out) as [[[d1 out1] Hok]|Hf].
    + rewrite Hok. cbn [obind]. apply IH.
      apply Exists_cons in Hex as [Hm|Hrest]; [|exact Hrest].
      apply receiveOne_Ok in Hok as [Hlen _]. lia.
    + rewrite Hf. reflexivity.
Qed.

(** [receivePackets] processes the mbufs of [taken], starting from the
    driver with both queues shortened. *)
Lemma receivePackets_unfold (this : addr) (d : t) (maxPackets : Z)
    (out : list Driver.Received) :
  receivePackets this d maxPackets out
    = processPackets this (taken d)
        (set_loopbackRing
           (drop (32 - length (take 16 (rxQueue d))) (loopbackRing d))
           (set_rxQueue (drop 16 (rxQueue d)) d))
        out.
Proof.
  unfold receivePackets, rte_eth_rx_burst. cbv zeta.
  unfold MAX_PACKETS_AT_ONCE, rte_ring_count.
  change (Z.to_nat (32 / 2)) with 16%nat.
  cbn [loopbackRing set_rxQueue].
  set (incoming := take 16 (rxQueue d)).
  assert (length incoming <= 16)%nat as Hinc
      by (unfold incoming; rewrite length_take; lia).
  set (n := Z.to_nat
              (if decide (Z.of_nat (length incoming)
                          + Z.of_nat (length (loopbackRing d)) > 32)
               then 32 - Z.of_nat (length incoming)
               else Z.of_nat (length (loopbackRing d)))).
  assert (n = (32 - length incoming) `min` length (loopbackRing d))%nat
    as Hn by (unfold n; destruct (decide _); lia).
  rewrite dequeueLoopback_spec by (cbn [loopbackRing set_rxQueue]; lia).
  cbn [loopbackRing set_rxQueue]. unfold taken. fold incoming.
  destruct (decide (32 - length incoming <= length (loopbackRing d))%nat).
  - rewrite Hn, Nat.min_l by lia. reflexivity.
  - rewrite Hn, Nat.min_r by lia.
    rewrite (take_ge (loopbackRing d) (length (loopbackRing d))) by lia.
    rewrite (take_ge (loopbackRing d) (32 - length incoming)) by lia.
    rewrite (drop_ge (loopbackRing d) (length (loopbackRing d))) by lia.
    rewrite (drop_ge (loopbackRing d) (32 - length incoming)) by lia.
    reflexivity.
Qed.

End Polling.

Section PollingTheorems.

Context `{K : DpdkConstants}.

Import DpdkDriver.

(** X1.  A poll that returns loses nothing and invents nothing.  It takes
    the first 16 frames of the receive queue of the NIC and then frames of
    the loopback ring, 32 frames at most in all; it appends exactly one
    envelope per frame taken, behind the envelopes already there; the
    counter of buffers in use and the number of free mbufs both grow by the
    number of frames taken; the frames not taken stay queued, in order; and
    the transmit queue, the estimator and the log are left alone. *)
Theorem receivePackets_conserves :
  forall (this : addr) (d d' : t) (maxPackets : Z)
         (out out' : list Driver.Received),
    receivePackets this d maxPackets out = Ok (d', out') ->
    let n := length (taken d) in
    (n <= 32)%nat /\
    (exists rs, out' = out ++ rs /\ length rs = n) /\
    packetBufsUtilized d' = packetBufsUtilized d + Z.of_nat n /\
    packetPool d' = (packetPool d + n)%nat /\
    taken d ++ rxQueue d' ++ loopbackRing d'
      ≡ₚ rxQueue d ++ loopbackRing d /\
    rxQueue d' = drop 16 (rxQueue d) /\
    (exists k, loopbackRing d' = drop k (loopbackRing d)) /\
    txQueue d' = txQueue d /\ queueEstimator d' = queueEstimator d /\
    log d' = log d.
Proof.
  intros this d d' maxPackets out out' Hr n.
  pose proof Hr as Hr0. rewrite receivePackets_unfold in Hr0.
  apply processPackets_Ok in Hr0 as (_ & Hq & Hp).
  destruct Hq as (Hrx & Hring & Htx & _ & Hest & Hlog).
  cbn [rxQueue loopbackRing txQueue queueEstimator log packetPool
       set_loopbackRing set_rxQueue] in *.
  pose proof Hr as Hr1. rewrite receivePackets_unfold in Hr1.
  apply processPackets_inv in Hr1 as (Hc & rs & -> & Hlen & _).
  cbn [packetBufsUtilized set_loopbackRing set_rxQueue] in Hc.
  split.
  { unfold n, taken. rewrite length_app, !length_take. lia. }
  split; [eauto|]. split; [exact Hc|]. split; [exact Hp|].
  split.
  { rewrite Hrx, Hring. unfold taken.
    set (j := (32 - length (take 16 (rxQueue d)))%nat).
    rewrite <- (take_drop 16 (rxQueue d)) at 3.
    rewrite <- (take_drop j (loopbackRing d)) at 3.
    rewrite <- !app_assoc. f_equiv.
    rewrite !app_assoc. f_equiv. apply Permutation_app_comm. }
  split; [exact Hrx|]. split; [eauto|]. auto.
Qed.

(** X2.  When no buffer was returned to the pool twice and the waiting
    frames have between 14 and [MAX_PAYLOAD_SIZE] + 14 bytes, a poll returns,
    and its envelopes come in the order of the frames taken: NIC frames
    first, loopback frames after.  Each envelope names the polling driver,
    has the length of its frame less the 14 bytes of Ethernet header, holds
    the bytes that follow that header, and gives as sender the source
    address of the frame. *)
Theorem receivePackets_in_order :
  forall (this : addr) (d : t) (maxPackets : Z) (out : list Driver.Received),
    MAX_PAYLOAD_SIZE < 2 ^ 32 - 14 ->
    poolOk (packetBufPool d) -> queuesOk d ->
    exists d' rs,
      receivePackets this d maxPackets out = Ok (d', out ++ rs) /\
      poolOk (packetBufPool d') /\
      Forall2
        (fun m r =>
           Driver.driver r = Some this /\
           Driver.len r = rte_pktmbuf_data_len m - 14 /\
           contents d' r = Some (drop 14 (pkt_data m)) /\
           senderOf d' r = MacAddress.ofRaw (drop 6 (pkt_data m)))
        (taken d) rs.
Proof.
  intros this d maxPackets out Hmax Hok Hq.
  destruct (receivePackets_spec this d maxPackets out Hmax Hok Hq)
    as (d' & rs & Hr & Hall & Hok' & _).
  exists d', rs. split; [exact Hr|]. split; [exact Hok'|].
  assert (Forall frameOk (taken d)) as Hfr.
  { destruct Hq as [Hrx Hring]. unfold taken. apply Forall_app.
    split; by apply Forall_take. }
  clear Hr. induction Hall as [|m r ms rs' Hc _ IH]; [constructor|].
  apply Forall_cons in Hfr as [[Hlo _] Hfr].
  constructor; [|by apply IH].
  destruct (carries_contents this d' m r Hc Hlo) as (Hl & Hco & Hs).
  destruct Hc as (p & -> & _). auto.
Qed.

(** X3.  A frame shorter than an Ethernet header is fatal to the poll that
    takes it: the length of its payload, computed as an unsigned difference,
    wraps around, and the copy out of the mbuf cannot be done. *)
Theorem receivePackets_runt_frame :
  forall (this : addr) (d : t) (maxPackets : Z) (out : list Driver.Received),
    Exists (fun m => rte_pktmbuf_data_len m < 14) (taken d) ->
    receivePackets this d maxPackets out = Halt MemoryFault.
Proof.
  intros this d maxPackets out Hex.
  rewrite receivePackets_unfold. by apply processPackets_runt.
Qed.

End PollingTheorems.

(** ** What a call of [sendPacket] changes *)

Section SendEffects.

Context `{K : DpdkConstants}.

Import DpdkDriver.

(** The length [sendPacket] computes, in 32 bits. *)
Lemma totalLength_bounds (header : list byte) (payload : option Iterator) :
  0 <= wrap32 (Z.of_nat (length header) +
               match payload with
               | Some it => Iterator_size it
               | None => 0
               end)
    <= packetLength header payload.
Proof.
  unfold packetLength, payloadBytes, Iterator_size, wrap32.
  destruct payload as [it|]; simpl.
  - pose proof (Z.mod_pos_bound (Z.of_nat (length (concat it))) (2 ^ 32) eq_refl).
    pose proof (Z.mod_le (Z.of_nat (length (concat it))) (2 ^ 32)
                  ltac:(lia) eq_refl).
    split; [apply Z.mod_pos_bound; reflexivity|].
    etransitivity; [apply Z.mod_le; [lia | reflexivity]|]. lia.
  - split; [apply Z.mod_pos_bound; reflexivity|].
    etransitivity; [apply Z.mod_le; [lia | reflexivity]|]. lia.
Qed.

(** The three ways in which [sendPacket] returns. *)
Lemma sendPacket_Ok_inv (d d' : t) (a : MacAddress.t) (header : list byte)
    (payload : option Iterator) (now : Z) :
  sendPacket d a header payload now = Ok d' ->
  let T := wrap32 (Z.of_nat (length header) +
                   match payload with
                   | Some it => Iterator_size it
                   | None => 0
                   end) in
  T <= MAX_PAYLOAD_SIZE /\
  ((packetPool d = O /\
    d' = LOG "Failed to allocate a packet buffer; dropping packet" d) \/
   (exists n, packetPool d = S n /\
      d' = rte_pktmbuf_free
             (LOG "rte_pktmbuf_append call failed; dropping packet"
                (set_packetPool n d))) \/
   (exists n,
      packetPool d = S n /\ T = packetLength header payload /\
      let f := frameFor d a header payload in
      let d1 := set_packetPool n d in
      let d2 := if MacAddress.eqb a (localMac d)
                then rte_ring_enqueue d1 f else rte_eth_tx_burst d1 f in
      d' = set_queueEstimator
             (QueueEstimator.packetQueued (queueEstimator d2) T now) d2)).
Proof.
  intros Hs T. pose proof (totalLength_bounds header payload) as HT.
  fold T in HT. unfold sendPacket in Hs. cbv zeta in Hs. fold T in Hs.
  apply obind_Ok in Hs as ([] & Hassert & Hs).
  unfold assert in Hassert. destruct (bool_decide _) eqn:Hle; [|discriminate].
  apply bool_decide_eq_true in Hle. split; [exact Hle|].
  unfold rte_pktmbuf_alloc in Hs. destruct (packetPool d) as [|n] eqn:Hn.
  { left. inversion Hs. auto. }
  right. apply obind_Ok in Hs as (len16 & Hcast & Hs).
  unfold downCast, assert in Hcast.
  destruct (bool_decide _) eqn:H16; [|discriminate].
  apply bool_decide_eq_true in H16. cbn [obind] in Hcast.
  inversion Hcast; subst len16. clear Hcast.
  unfold rte_pktmbuf_append, rte_pktmbuf_data_len in Hs.
  cbn [pkt_data length app] in Hs.
  destruct (decide _) as [Hroom|Hroom].
  2:{ left. exists n. inversion Hs. auto. }
  right. exists n. split; [reflexivity|].
  apply obind_Ok in Hs as (data & Hstore & Hs).
  rewrite copyChunks_concat in Hstore. fold (payloadBytes payload) in Hstore.
  cbn [localMac set_packetPool pkt_data] in Hstore.
  unfold store in Hstore. destruct (decide _) as [Hfit|]; [|discriminate].
  cbn [pkt_data] in Hfit, Hstore.
  rewrite length_replicate, !length_app, EthernetHeader_length in Hfit.
  unfold NetUtil.sizeof_EthernetHeader, wrap32 in *.
  pose proof (Z.mod_le (T + 14) (2 ^ 32) ltac:(lia) eq_refl) as Hmod.
  assert (T = packetLength header payload) as HTeq
      by (unfold packetLength in *; lia).
  split; [exact HTeq|].
  assert (data = pkt_data (frameFor d a header payload)) as ->.
  { injection Hstore as Hdata. rewrite <- Hdata. rewrite drop_ge.
    - rewrite app_nil_r. reflexivity.
    - rewrite length_replicate. cbn [length]. rewrite length_app.
      unfold packetLength in *. lia. }
  cbv zeta. injection Hs as Hd'. rewrite <- Hd'. reflexivity.
Qed.

(** X4.  What [sendPacket] may change.  It never touches the packet
    buffers, their counter, the receive queue or the driver's address.
    Either it drops the packet, and then it logs one message and leaves the
    mbuf pool, both queues and the estimator as they were; or it builds the
    frame, and then it logs nothing, takes one mbuf from the pool, tells the
    estimator, and offers the frame to the loopback ring (destination equal
    to the local address) or to the transmit queue (any other destination).
    A ring or queue that is full refuses the frame: it is lost without a
    trace, its mbuf does not return to the pool, and the estimator has
    counted it all the same. *)
Theorem sendPacket_effects :
  forall (d d' : t) (a : MacAddress.t) (header : list byte)
         (payload : option Iterator) (now : Z),
    sendPacket d a header payload now = Ok d' ->
    packetBufPool d' = packetBufPool d /\
    packetBufsUtilized d' = packetBufsUtilized d /\
    rxQueue d' = rxQueue d /\ localMac d' = localMac d /\
    (((exists msg, log d' = log d ++ [msg]) /\
      packetPool d' = packetPool d /\
      loopbackRing d' = loopbackRing d /\ txQueue d' = txQueue d /\
      queueEstimator d' = queueEstimator d) \/
     (log d' = log d /\
      packetPool d = S (packetPool d') /\
      packetLength header payload <= MAX_PAYLOAD_SIZE /\
      queueEstimator d'
        = QueueEstimator.packetQueued (queueEstimator d)
            (packetLength header payload) now /\
      (if MacAddress.eqb a (localMac d)
       then txQueue d' = txQueue d /\
            loopbackRing d'
              = (if decide (length (loopbackRing d)
                            < LOOPBACK_RING_COUNT - 1)%nat
                 then loopbackRing d ++ [frameFor d a header payload]
                 else loopbackRing d)
       else loopbackRing d' = loopbackRing d /\
            txQueue d'
              = (if decide (length (txQueue d) < NDESC)%nat
                 then txQueue d ++ [frameFor d a header payload]
                 else txQueue d)))).
Proof.
  intros d d' a header payload now Hs.
  apply sendPacket_Ok_inv in Hs as (HT & [[Hn ->]|[(n & Hn & ->)|(n & Hn & HTeq & ->)]]).
  - repeat (split; [reflexivity|]). left. simpl. eauto 10.
  - repeat (split; [reflexivity|]). left. simpl. rewrite Hn. eauto 10.
  - rewrite HTeq in *. cbv zeta. unfold rte_ring_enqueue, rte_eth_tx_burst.
    cbn [loopbackRing txQueue set_packetPool].
    destruct (MacAddress.eqb a (localMac d));
      destruct (decide _); simpl; rewrite Hn; auto 15.
Qed.

(** X5.  Only the bytes of the payload count, not the chunks the buffer
    holds them in: a payload iterator may be replaced by one over a single
    chunk with the same bytes, and a null iterator by an empty one, without
    any difference to what [sendPacket] does. *)
Theorem sendPacket_chunking :
  forall (d : t) (a : MacAddress.t) (header : list byte)
         (payload : Iterator) (now : Z),
    sendPacket d a header (Some payload) now
      = sendPacket d a header (Some [concat payload]) now /\
    sendPacket d a header None now = sendPacket d a header (Some []) now.
Proof.
  intros d a header payload now. split; [|reflexivity].
  assert (Iterator_size [concat payload] = Iterator_size payload) as Hsize.
  { unfold Iterator_size. cbn [concat]. by rewrite app_nil_r. }
  unfold sendPacket. cbv zeta. rewrite Hsize.
  destruct (assert _) as [[]| |]; cbn [obind]; [|reflexivity|reflexivity].
  destruct (rte_pktmbuf_alloc d) as [[mbuf d1]|]; [|reflexivity].
  destruct (downCast _ _) as [len16| |]; cbn [obind];
    [|reflexivity|reflexivity].
  destruct (rte_pktmbuf_append _ _) as [mbuf'|]; [|reflexivity].
  rewrite !copyChunks_concat.
  change (concat (default [] (Some [concat payload])))
    with (concat payload ++ []).
  by rewrite (app_nil_r (concat payload)).
Qed.

End SendEffects.

(** ** What every driver keeps, from construction on *)

Section Reachable.

Context `{K : DpdkConstants}.

Import DpdkDriver.

Lemma create_Ok_inv (sl : option ServiceLocator.t) (env : Environment) (d : t) :
  create sl env = Ok d ->
  exists (ls : string) (lm : option MacAddress.t),
    match sl with
    | Some l =>
        exists pid B,
          parseLocator l = Ok (lm, pid, B) /\
          ls = ServiceLocator.getOriginalString l /\
          pid = portId d /\ B = bandwidthGbps d
    | None => ls = EmptyString /\ lm = None /\
              portId d = 0 /\ bandwidthGbps d = 10
    end /\
    maxTransmitQueueSize d = deriveMaxTransmitQueueSize (bandwidthGbps d) /\
    mempoolCreated env = true /\ portId d < numPorts env /\
    linkStatus env = true /\ mtuAccepted env = true /\
    ringCreated env = true /\
    (localMac d, locatorString d)
      = match lm with
        | Some m =>
            if MacAddress.isNull m
            then (deviceMac env,
                  "basic+dpdk:mac=" +:+ MacAddress.toString (deviceMac env)
                    +:+ ",devport=" +:+ pretty (portId d))
            else (m, ls)
        | None =>
            (deviceMac env,
             "basic+dpdk:mac=" +:+ MacAddress.toString (deviceMac env)
               +:+ ",devport=" +:+ pretty (portId d))
        end /\
    packetBufPool d = ObjectPool_new /\ packetBufsUtilized d = 0 /\
    packetPool d = (NB_MBUF - NDESC)%nat /\
    loopbackRing d = [] /\ rxQueue d = [] /\ txQueue d = [] /\ log d = [] /\
    queueEstimator d
      = QueueEstimator.setBandwidth
          (QueueEstimator.create 0 (cyclesPerSec env))
          (1000 * bandwidthGbps d) (cyclesPerSec env).
Proof.
  unfold create. intros Hc.
  apply obind_Ok in Hc as ([[[ls lm] pid] B] & Hparse & Hc).
  destruct (mempoolCreated env); cbn [negb] in Hc; [|discriminate].
  destruct (decide _) as [|Hport]; [discriminate|].
  destruct (match lm with Some _ => _ | None => _ end) as [m s] eqn:Hmac.
  destruct (linkStatus env); cbn [negb] in Hc; [|discriminate].
  destruct (mtuAccepted env); cbn [negb] in Hc; [|discriminate].
  destruct (ringCreated env); cbn [negb] in Hc; [|discriminate].
  injection Hc as <-. cbn.
  exists ls, lm. split.
  { destruct sl as [l|].
    - apply obind_Ok in Hparse as ([[lm' pid'] B'] & Hp & Hparse).
      injection Hparse as <- <- <- <-. eauto 10.
    - injection Hparse as <- <- <- <-. auto. }
  split; [reflexivity|]. split; [reflexivity|]. split; [lia|].
  repeat (split; [reflexivity|]). split; [symmetry; exact Hmac|].
  repeat (split; [reflexivity|]). reflexivity.
Qed.

Lemma parseLocator_Ok_inv (l : ServiceLocator.t) (lm : option MacAddress.t)
    (pid B : Z) :
  parseLocator l = Ok (lm, pid, B) ->
  match ServiceLocator.options l !! "mac" with
  | None => lm = None
  | Some v => exists m, MacAddress.parse v = Some m /\ lm = Some m
  end /\
  match ServiceLocator.options l !! "devport" with
  | None => pid = 0
  | Some v => ServiceLocator.parseInt v = Some pid /\ 0 <= pid < 2 ^ 8
  end /\
  match ServiceLocator.options l !! "gbs" with
  | None => B = 10
  | Some v => ServiceLocator.parseInt v = Some B
  end.
Proof.
  unfold parseLocator. intros Hp.
  apply obind_Ok in Hp as (lm' & Hmac & Hp).
  apply obind_Ok in Hp as (pid' & Hport & Hp).
  apply obind_Ok in Hp as (B' & Hgbs & Hp).
  injection Hp as -> -> ->.
  unfold catchNoSuchKey, ServiceLocator.getOptionInt,
    ServiceLocator.getOption, MacAddress.fromString in *.
  split; [|split].
  - destruct (ServiceLocator.options l !! "mac") as [v|]; cbn [obind] in Hmac.
    + destruct (MacAddress.parse v) as [m|]; cbn [obind] in Hmac;
        [|discriminate].
      injection Hmac as <-. eauto.
    + by injection Hmac as <-.
  - destruct (ServiceLocator.options l !! "devport") as [v|];
      cbn [obind] in Hport.
    + unfold stringToInt, downCast, assert in Hport.
      destruct (ServiceLocator.parseInt v) as [n|].
      * destruct (bool_decide _) eqn:Hfit; cbn [obind] in Hport;
          [|discriminate].
        apply bool_decide_eq_true in Hfit. injection Hport as <-. auto.
      * destruct (bool_decide _); cbn [obind] in Hport; discriminate.
    + by injection Hport as <-.
  - destruct (ServiceLocator.options l !! "gbs") as [v|]; cbn [obind] in Hgbs.
    + destruct (ServiceLocator.parseInt v) as [n|]; [|discriminate].
      by injection Hgbs as <-.
    + by injection Hgbs as <-.
Qed.

(** X6.  A driver exists only where DPDK could be set up: the mbuf pool
    and the loopback ring were created, the port it uses exists, the link
    is up and the MTU was accepted.  It starts with no packet buffer in
    use and none waiting for reuse, with empty queues and ring, and with
    all mbufs free but those of the receive descriptors.  The notice the
    constructor writes at its end is not part of [create], and nothing is
    said here about the log. *)
Theorem create_initial_state :
  forall (sl : option ServiceLocator.t) (env : Environment) (d : t),
    create sl env = Ok d ->
    (mempoolCreated env = true /\ linkStatus env = true /\
     mtuAccepted env = true /\ ringCreated env = true /\
     portId d < numPorts env) /\
    packetBufsUtilized d = 0 /\
    objects (packetBufPool d) = ∅ /\ pool (packetBufPool d) = [] /\
    poolOk (packetBufPool d) /\
    packetPool d = (NB_MBUF - NDESC)%nat /\
    rxQueue d = [] /\ txQueue d = [] /\ loopbackRing d = [] /\
    queuesOk d /\ outboundOk d.
Proof.
  intros sl env d Hc.
  apply create_Ok_inv in Hc
    as (ls & lm & _ & _ & Hmem & Hport & Hlink & Hmtu & Hring & _ &
        Hpool & Hcnt & Hmbufs & Hloop & Hrx & Htx & Hlog & _).
  split; [auto|]. split; [exact Hcnt|]. rewrite Hpool.
  split; [reflexivity|]. split; [reflexivity|].
  split.
  { split; [constructor|]. split.
    - intros a Ha. by apply not_elem_of_nil in Ha.
    - intros a _. apply lookup_empty. }
  split; [exact Hmbufs|]. repeat (split; [assumption|]).
  unfold queuesOk, outboundOk. rewrite Hrx, Hloop, Htx.
  repeat split; try constructor; simpl; lia.
Qed.

(** X7.  How the locator decides the address and the port.  Without a
    [mac] option, or with the all-zero MAC address, the driver takes the
    MAC address of the device and rewrites its locator string to
    [basic+dpdk:mac=<device MAC>,devport=<port>]; with any other
    well-formed MAC address it takes that one and keeps the locator string
    it was given.  The port is the [devport] option, a number below 256,
    or 0 without that option. *)
Theorem create_reads_locator :
  forall (l : ServiceLocator.t) (env : Environment) (d : t),
    create (Some l) env = Ok d ->
    let rewritten :=
      "basic+dpdk:mac=" +:+ MacAddress.toString (deviceMac env)
        +:+ ",devport=" +:+ pretty (portId d) in
    match ServiceLocator.options l !! "mac" with
    | None => localMac d = deviceMac env /\ locatorString d = rewritten
    | Some v =>
        exists m, MacAddress.parse v = Some m /\
          if MacAddress.isNull m
          then localMac d = deviceMac env /\ locatorString d = rewritten
          else localMac d = m /\
               locatorString d = ServiceLocator.getOriginalString l
    end /\
    match ServiceLocator.options l !! "devport" with
    | None => portId d = 0
    | Some v => ServiceLocator.parseInt v = Some (portId d) /\
                0 <= portId d < 2 ^ 8
    end.
Proof.
  intros l env d Hc rewritten.
  apply create_Ok_inv in Hc
    as (ls & lm & (pid & B & Hparse & -> & -> & ->) & _ & _ & _ & _ & _ & _ &
        Hmac & _).
  apply parseLocator_Ok_inv in Hparse as (Hm & Hp & _).
  split; [|exact Hp].
  destruct (ServiceLocator.options l !! "mac") as [v|].
  - destruct Hm as (m & Hv & ->). exists m. split; [exact Hv|].
    destruct (MacAddress.isNull m); by injection Hmac as -> ->.
  - subst lm. by injection Hmac as -> ->.
Qed.

Lemma obind_Throw {A B} (m : outcome A) (k : A -> outcome B) (e : Exception) :
  obind m k = Throw e -> m = Throw e \/ exists a, m = Ok a /\ k a = Throw e.
Proof.
  destruct m as [a|e'|st]; simpl; intros H; [right; eauto | | discriminate].
  left. by injection H as ->.
Qed.

Lemma parseLocator_Throw (l : ServiceLocator.t) (e : Exception) :
  parseLocator l = Throw e ->
  (exists msg, e = DriverException msg) \/
  e = BadValueException "mac" \/ e = BadValueException "gbs".
Proof.
  unfold parseLocator. intros Hp.
  apply obind_Throw in Hp as [Hmac|(lm & _ & Hp)].
  { right. left.
    unfold catchNoSuchKey, ServiceLocator.getOption, MacAddress.fromString
      in Hmac.
    destruct (ServiceLocator.options l !! "mac") as [v|]; cbn [obind] in Hmac;
      [|discriminate].
    destruct (MacAddress.parse v); cbn [obind] in Hmac; [discriminate|].
    by injection Hmac as <-. }
  apply obind_Throw in Hp as [Hport|(pid & _ & Hp)].
  { left.
    unfold catchNoSuchKey, ServiceLocator.getOption, stringToInt, downCast,
      assert in Hport.
    destruct (ServiceLocator.options l !! "devport") as [v|];
      cbn [obind] in Hport; [|discriminate].
    destruct (ServiceLocator.parseInt v); destruct (bool_decide _);
      cbn [obind] in Hport; try discriminate.
    injection Hport as <-. eauto. }
  apply obind_Throw in Hp as [Hgbs|(B & _ & Hp)]; [|discriminate].
  right. right.
  unfold catchNoSuchKey, ServiceLocator.getOptionInt, ServiceLocator.getOption
    in Hgbs.
  destruct (ServiceLocator.options l !! "gbs") as [v|]; cbn [obind] in Hgbs;
    [|discriminate].
  destruct (ServiceLocator.parseInt v); [discriminate|].
  by injection Hgbs as <-.
Qed.

(** X8.  The constructor never fails for want of an option.  An exception
    that leaves it is a [DriverException], or the [BadValueException] of a
    [mac] or [gbs] option that is there but malformed; a
    [NoSuchKeyException] does not get out. *)
Theorem create_exception_kinds :
  forall (sl : option ServiceLocator.t) (env : Environment) (e : Exception),
    create sl env = Throw e ->
    ((exists msg, e = DriverException msg) \/
     e = BadValueException "mac" \/ e = BadValueException "gbs") /\
    kindOf e <> MissingOption.
Proof.
  intros sl env e Hc.
  assert ((exists msg, e = DriverException msg) \/
          e = BadValueException "mac" \/ e = BadValueException "gbs") as He.
  { unfold create in Hc.
    apply obind_Throw in Hc as [Hparse|([[[ls lm] pid] B] & _ & Hc)].
    { destruct sl as [l|]; [|discriminate].
      apply obind_Throw in Hparse as [Hp|([[lm pid] B] & _ & Hp)];
        [by apply parseLocator_Throw in Hp | discriminate]. }
    left.
    destruct (negb (mempoolCreated env)); [injection Hc as <-; eauto|].
    destruct (decide _); [injection Hc as <-; eauto|].
    destruct (match lm with Some _ => _ | None => _ end) as [m s].
    destruct (negb (linkStatus env)); [injection Hc as <-; eauto|].
    destruct (negb (mtuAccepted env)); [injection Hc as <-; eauto|].
    destruct (negb (ringCreated env)); [injection Hc as <-; eauto|].
    discriminate. }
  split; [exact He|].
  destruct He as [[msg ->]|[->| ->]]; discriminate.
Qed.

(** X9.  The three options are optional in earnest: a locator that has none
    of [mac], [devport] and [gbs] gives exactly the driver, or the failure,
    that no locator at all gives. *)
Theorem create_without_options :
  forall (l : ServiceLocator.t) (env : Environment),
    ServiceLocator.options l !! "mac" = None ->
    ServiceLocator.options l !! "devport" = None ->
    ServiceLocator.options l !! "gbs" = None ->
    create (Some l) env = create None env.
Proof.
  intros l env Hmac Hport Hgbs.
  unfold create, parseLocator, catchNoSuchKey, ServiceLocator.getOptionInt,
    ServiceLocator.getOption.
  rewrite Hmac, Hport, Hgbs. reflexivity.
Qed.

(** X10.  Without a locator the constructor succeeds exactly when DPDK
    could be set up with at least one port, and when it does not succeed
    it throws a [DriverException]: it neither stops the program nor throws
    anything else. *)
Theorem create_without_locator_iff :
  forall (env : Environment),
    let usable :=
      mempoolCreated env = true /\ 0 < numPorts env /\
      linkStatus env = true /\ mtuAccepted env = true /\
      ringCreated env = true in
    (usable <-> exists d, create None env = Ok d) /\
    (~ usable <-> exists msg, create None env = Throw (DriverException msg)).
Proof.
  intros env usable.
  assert (usable -> exists d, create None env = Ok d) as Hyes.
  { intros (Hmem & Hport & Hlink & Hmtu & Hring). unfold create.
    cbn [obind]. rewrite Hmem, Hlink, Hmtu, Hring. cbn [negb].
    rewrite decide_False by lia. eauto. }
  assert (~ usable -> exists msg, create None env = Throw (DriverException msg))
    as Hno.
  { intros Hnot. unfold create. cbn [obind].
    destruct (mempoolCreated env) eqn:Hmem; cbn [negb]; [|eauto].
    destruct (decide _) as [|Hport]; [eauto|].
    destruct (linkStatus env) eqn:Hlink; cbn [negb]; [|eauto].
    destruct (mtuAccepted env) eqn:Hmtu; cbn [negb]; [|eauto].
    destruct (ringCreated env) eqn:Hring; cbn [negb]; [|eauto].
    destruct Hnot. unfold usable. repeat split; lia. }
  split; split.
  - exact Hyes.
  - intros [d Hd].
    apply create_Ok_inv in Hd
      as (? & ? & (_ & _ & Hpid & _) & _ & ? & Hp & ? & ? & ? & _).
    unfold usable. rewrite Hpid in Hp. auto.
  - exact Hno.
  - intros [msg Hmsg] Hu. destruct (Hyes Hu) as [d Hd]. congruence.
Qed.

Lemma receiveOne_configuration (this : addr) (m : rte_mbuf) (d d' : t)
    (out out' : list Driver.Received) :
  receiveOne this m d out = Ok (d', out') -> sameConfiguration d d'.
Proof.
  unfold receiveOne. destruct (ObjectPool_construct _) as [buffer bufPool].
  intros Hr. apply obind_Ok in Hr as (mac & _ & Hr).
  apply obind_Ok in Hr as (bytes & _ & Hr). injection Hr as <- _.
  unfold sameConfiguration. simpl. auto.
Qed.

Lemma processPackets_configuration (this : addr) (mPkts : list rte_mbuf)
    (d d' : t) (out out' : list Driver.Received) :
  processPackets this mPkts d out = Ok (d', out') -> sameConfiguration d d'.
Proof.
  induction mPkts as [|m rest IH] in d, out |- *; simpl; intros Hr.
  - injection Hr as <- _. unfold sameConfiguration. auto.
  - apply obind_Ok in Hr as ([d1 out1] & H1 & Hr).
    apply receiveOne_configuration in H1 as (? & ? & ? & ? & ?).
    apply IH in Hr as (? & ? & ? & ? & ?).
    unfold sameConfiguration. repeat split; congruence.
Qed.

(** What one call keeps. *)
Lemma perform_keeps (this : addr) (c : call) (d d' : t)
    (out out' : list Driver.Received) :
  perform this c (d, out) = Ok (d', out') ->
  outboundOk d -> outboundOk d' /\ sameConfiguration d d'.
Proof.
  intros Hp (Hring & Hrlen & Htx & Htlen).
  destruct c as [maxPackets|p|a header payload now|now|m]; simpl in Hp.
  - rewrite receivePackets_unfold in Hp.
    pose proof (processPackets_configuration _ _ _ _ _ _ Hp) as Hcfg.
    apply processPackets_Ok in Hp as (_ & Hq & _).
    destruct Hq as (_ & Hr & Ht & _).
    cbn [loopbackRing txQueue set_loopbackRing set_rxQueue] in Hr, Ht.
    split; [|exact Hcfg].
    unfold outboundOk. rewrite Hr, Ht.
    split; [by apply Forall_drop|]. split; [rewrite length_drop; lia|]. auto.
  - apply obind_Ok in Hp as (d1 & Hrel & Hp). injection Hp as <- _.
    destruct (decide (1 <= packetBufsUtilized d)).
    + rewrite release_in_use in Hrel by assumption. injection Hrel as <-.
      split; [|unfold sameConfiguration; simpl; auto].
      unfold outboundOk. simpl. auto.
    + rewrite release_underflow in Hrel by lia. discriminate.
  - apply obind_Ok in Hp as (d1 & Hs & Hp). injection Hp as <- _.
    apply sendPacket_Ok_inv
      in Hs as (HT & [[_ ->]|[(n & _ & ->)|(n & _ & HTeq & ->)]]).
    + split; [|unfold sameConfiguration; simpl; auto].
      unfold outboundOk. simpl. auto.
    + split; [|unfold sameConfiguration; simpl; auto].
      unfold outboundOk. simpl. auto.
    + cbv zeta. rewrite HTeq in HT.
      pose proof (frameFor_ok d a header payload HT) as Hf.
      unfold rte_ring_enqueue, rte_eth_tx_burst.
      cbn [loopbackRing txQueue set_packetPool].
      destruct (MacAddress.eqb a (localMac d)); destruct (decide _);
        (split; [|unfold sameConfiguration; simpl; auto]);
        unfold outboundOk, LOOPBACK_RING_COUNT in *; simpl;
        rewrite ?length_app; simpl;
        repeat split; auto; try lia;
        try (apply Forall_app; split; auto).
  - injection Hp as <- _.
    split; [|unfold sameConfiguration; simpl; auto].
    unfold outboundOk. simpl. auto.
  - injection Hp as <- _.
    split; [|unfold sameConfiguration; simpl; auto].
    unfold outboundOk. simpl. auto.
Qed.

Lemma run_keeps (this : addr) (calls : list call) (d d' : t)
    (out out' : list Driver.Received) :
  run this calls (d, out) = Ok (d', out') ->
  outboundOk d -> outboundOk d' /\ sameConfiguration d d'.
Proof.
  induction calls as [|c rest IH] in d, out |- *; simpl; intros Hr Hok.
  - injection Hr as <- _. split; [exact Hok|]. unfold sameConfiguration. auto.
  - apply obind_Ok in Hr as ([d1 out1] & Hp & Hr).
    apply perform_keeps in Hp as [Hok1 (? & ? & ? & ? & ?)]; [|exact Hok].
    apply IH in Hr as [Hok' (? & ? & ? & ? & ?)]; [|exact Hok1].
    split; [exact Hok'|]. unfold sameConfiguration. repeat split; congruence.
Qed.

(** X11.  Whatever a transport does with a driver after constructing it,
    and whatever arrives meanwhile: the address, locator string, port,
    bandwidth and queue threshold stay as the constructor set them; the
    loopback ring never holds more than 4095 frames nor the transmit queue
    more than [NDESC], and every frame on them has between 14 and
    [MAX_PAYLOAD_SIZE] + 14 bytes; and the counter of buffers in use is
    the number of envelopes handed out less the number of calls of
    [release], never negative. *)
Theorem driver_invariants :
  forall (sl : option ServiceLocator.t) (env : Environment) (this : addr)
         (calls : list call) (d d' : t) (out' : list Driver.Received),
    create sl env = Ok d ->
    run this calls (d, []) = Ok (d', out') ->
    sameConfiguration d d' /\ outboundOk d' /\
    0 <= packetBufsUtilized d' /\
    packetBufsUtilized d' = Z.of_nat (length out') - releases calls.
Proof.
  intros sl env this calls d d' out' Hc Hrun.
  apply create_Ok_inv in Hc
    as (ls & lm & _ & _ & _ & _ & _ & _ & _ & _ & _ & Hcnt & _ &
        Hloop & _ & Htx & _).
  destruct (run_keeps _ _ _ _ _ _ Hrun) as [Hok Hcfg].
  { unfold outboundOk. rewrite Hloop, Htx. repeat split; try constructor;
      simpl; lia. }
  apply run_counter in Hrun as [Hn Heq]; [|lia].
  split; [exact Hcfg|]. split; [exact Hok|]. split; [exact Hn|].
  simpl in Heq. lia.
Qed.

(** X12.  The destructor tells whether buffers leaked.  At the end of a
    driver's life it logs an error exactly when the transport called
    [release] fewer times than it was handed envelopes; when every
    envelope was released, it logs nothing. *)
Theorem destroy_reports_leaks :
  forall (sl : option ServiceLocator.t) (env : Environment) (this : addr)
         (calls : list call) (d d' : t) (out' : list Driver.Received),
    create sl env = Ok d ->
    run this calls (d, []) = Ok (d', out') ->
    (log (destroy d') = log d' <-> releases calls = Z.of_nat (length out')) /\
    (log (destroy d') <> log d' <-> releases calls < Z.of_nat (length out')).
Proof.
  intros sl env this calls d d' out' Hc Hrun.
  apply create_Ok_inv in Hc
    as (ls & lm & _ & _ & _ & _ & _ & _ & _ & _ & _ & Hcnt & _).
  apply run_counter in Hrun as [Hn Heq]; [|lia]. simpl in Heq.
  assert (forall (l : list string) (x : string), l ++ [x] <> l) as Hgrow.
  { intros l x Heq'. apply (f_equal length) in Heq'.
    rewrite length_app in Heq'. simpl in Heq'. lia. }
  unfold destroy. destruct (decide _) as [Hne|Hz]; simpl.
  - split; split; intros H; try lia.
    + by apply Hgrow in H.
    + apply Hgrow.
  - split; split; intros H; try lia; try reflexivity. by destruct H.
Qed.

End Reachable.

(** ** Several packets in a row *)

Section InOrder.

Context `{K : DpdkConstants}.

Import DpdkDriver.

Hypothesis sane : constantsSane.




End InOrder.

(** ** Sending and the queue space *)

Lemma Qfloor_plus_Z (x : Q) (n : Z) :
  Qfloor (x + inject_Z n) = Qfloor x + n.
Proof.
  destruct x as [a b]. unfold Qfloor, Qplus, inject_Z. simpl.
  rewrite Z.mul_1_r, Pos.mul_1_r. apply Z.div_add. lia.
Qed.

Lemma getQueueSize_after_packetQueued (e : QueueEstimator.t) (bytes now : Z) :
  0 <= bytes ->
  (QueueEstimator.getQueueSize (QueueEstimator.packetQueued e bytes now) now).2
    = (QueueEstimator.getQueueSize e now).2 + bytes.
Proof.
  intros Hb. unfold QueueEstimator.getQueueSize. cbn [snd].
  unfold QueueEstimator.advance at 1. cbn [QueueEstimator.queueSize].
  etransitivity; [|apply Qfloor_plus_Z].
  apply Qfloor_comp.
  unfold QueueEstimator.packetQueued.
  rewrite (drained_same_time
             {| QueueEstimator.bandwidth :=
                  QueueEstimator.bandwidth (QueueEstimator.advance e now);
                QueueEstimator.currentTime :=
                  QueueEstimator.currentTime (QueueEstimator.advance e now);
                QueueEstimator.queueSize :=
                  (QueueEstimator.queueSize (QueueEstimator.advance e now)
                     + inject_Z bytes)%Q |}).
  - reflexivity.
  - cbn. pose proof (drained_nonneg e now).
    assert (0 <= inject_Z bytes)%Q
      by (change 0%Q with (inject_Z 0); by rewrite <- Zle_Qle).
    lra.
Qed.

Section Charging.

Context `{K : DpdkConstants}.

Import DpdkDriver.

(** X14.  What is sent is charged at once.  When [sendPacket] has not
    dropped the packet (it logged nothing), the queue space reported for
    the time of sending is lower than it would have been without the send
    by exactly the length of header and payload, so long as both values fit
    the [int] that [getTransmitQueueSpace] returns. *)
Theorem sendPacket_charges_queue_space :
  forall (d d' : t) (a : MacAddress.t) (header : list byte)
         (payload : option Iterator) (now : Z),
    sendPacket d a header payload now = Ok d' ->
    log d' = log d ->
    let size := (QueueEstimator.getQueueSize (queueEstimator d) now).2 in
    - 2 ^ 31 <= maxTransmitQueueSize d - size - packetLength header payload ->
    maxTransmitQueueSize d - size < 2 ^ 31 ->
    (getTransmitQueueSpace d' now).2
      = (getTransmitQueueSpace d now).2 - packetLength header payload.
Proof.
  intros d d' a header payload now Hs Hlog size Hlo Hhi.
  assert (0 <= packetLength header payload) as H0
      by (unfold packetLength; lia).
  assert (forall (l : list string) (x : string), l ++ [x] <> l) as Hgrow.
  { intros l x Heq'. apply (f_equal length) in Heq'.
    rewrite length_app in Heq'. simpl in Heq'. lia. }
  apply sendPacket_Ok_inv
    in Hs as (HT & [[_ ->]|[(n & _ & ->)|(n & _ & HTeq & ->)]]).
  - simpl in Hlog. by apply Hgrow in Hlog.
  - simpl in Hlog. by apply Hgrow in Hlog.
  - rewrite HTeq. cbv zeta.
    assert (forall d2,
               queueEstimator d2 = queueEstimator d ->
               maxTransmitQueueSize d2 = maxTransmitQueueSize d ->
               (getTransmitQueueSpace
                  (set_queueEstimator
                     (QueueEstimator.packetQueued (queueEstimator d2)
                        (packetLength header payload) now) d2) now).2
               = (getTransmitQueueSpace d now).2
                   - packetLength header payload) as Hgen.
    { intros d2 He Hm.
      pose proof (getQueueSize_after_packetQueued (queueEstimator d)
                    (packetLength header payload) now H0) as Hq.
      assert (0 <= size).
      { unfold size. simpl. change 0 with (Qfloor 0).
        apply Qfloor_resp_le, drained_nonneg. }
      unfold size in *. clear size.
      unfold getTransmitQueueSpace, QueueEstimator.getQueueSize in *.
      cbn [snd queueEstimator maxTransmitQueueSize set_queueEstimator] in *.
      rewrite He, Hm, Hq.
      rewrite !to_int32_in_range; lia. }
    unfold rte_ring_enqueue, rte_eth_tx_burst.
    destruct (MacAddress.eqb a (localMac d)); destruct (decide _);
      apply Hgen; reflexivity.
Qed.

End Charging.

(** ** The further properties on examples *)

(** One frame from the NIC and one from the loopback ring. *)
Lemma receivePackets_conserves_witness :
  let d := DpdkDriver.set_loopbackRing
             [Sample.frame (Sample.mac x01) (Sample.mac x01) "own"]
             (Sample.withArrivals
                [Sample.frame (Sample.mac x01) (Sample.mac x02) "peer"]) in
  exists d' out',
    @DpdkDriver.receivePackets ethernetConstants Sample.this d 8 []
      = Ok (d', out') /\
    DpdkDriver.packetBufsUtilized d' = 2 /\
    DpdkDriver.packetPool d' = (DpdkDriver.packetPool d + 2)%nat.
Proof.
  intros d.
  assert (exists d' out',
             @DpdkDriver.receivePackets ethernetConstants Sample.this d 8 []
             = Ok (d', out'))
    as (d' & out' & Hr) by (eexists _, _; vm_compute; reflexivity).
  destruct (@receivePackets_conserves ethernetConstants _ _ _ _ _ _ Hr)
    as (_ & _ & Hc & Hp & _).
  exists d', out'. split; [exact Hr|]. split; [exact Hc | exact Hp].
Defined.

Lemma receivePackets_in_order_witness :
  let d := DpdkDriver.set_loopbackRing
             [Sample.frame (Sample.mac x01) (Sample.mac x01) "own"]
             (Sample.withArrivals
                [Sample.frame (Sample.mac x01) (Sample.mac x02) "peer"]) in
  exists d' r1 r2,
    @DpdkDriver.receivePackets ethernetConstants Sample.this d 8 []
      = Ok (d', [r1; r2]) /\
    DpdkDriver.contents d' r1 = Some (Sample.bytesOf "peer") /\
    DpdkDriver.contents d' r2 = Some (Sample.bytesOf "own").
Proof.
  intros d.
  destruct (@receivePackets_in_order ethernetConstants Sample.this d 8 [])
    as (d' & rs & Hr & _ & Hall).
  - vm_compute. reflexivity.
  - exact ObjectPool_new_ok.
  - split; (constructor; [vm_compute; split; discriminate | constructor]).
  - change (@DpdkDriver.taken d)
      with [Sample.frame (Sample.mac x01) (Sample.mac x02) "peer";
            Sample.frame (Sample.mac x01) (Sample.mac x01) "own"] in Hall.
    apply Forall2_cons_inv_l in Hall as (r1 & rs1 & (_ & _ & H1 & _) & Hall & ->).
    apply Forall2_cons_inv_l in Hall as (r2 & rs2 & (_ & _ & H2 & _) & Hall & ->).
    apply Forall2_nil_inv_l in Hall as ->.
    exists d', r1, r2. split; [exact Hr|]. split; [exact H1 | exact H2].
Defined.

(** A frame of ten bytes. *)
Lemma receivePackets_runt_frame_witness :
  @DpdkDriver.receivePackets ethernetConstants Sample.this
    (Sample.withArrivals [DpdkDriver.mkMbuf (replicate 10 x00)]) 1 []
  = Halt MemoryFault.
Proof.
  apply (@receivePackets_runt_frame ethernetConstants).
  apply Exists_cons_hd. vm_compute. reflexivity.
Defined.

(** A packet for a peer while the transmit queue is full. *)
Lemma sendPacket_effects_witness :
  let d := DpdkDriver.set_txQueue
             (replicate 256 (Sample.frame (Sample.mac x02) (Sample.mac x01) ""))
             (Sample.idle (Sample.mac x01)) in
  exists d',
    @DpdkDriver.sendPacket ethernetConstants d (Sample.mac x02)
      (Sample.bytesOf "lost") None 0 = Ok d' /\
    DpdkDriver.txQueue d' = DpdkDriver.txQueue d /\
    DpdkDriver.log d' = [] /\
    DpdkDriver.packetPool d = S (DpdkDriver.packetPool d').
Proof.
  intros d.
  assert (exists d',
             @DpdkDriver.sendPacket ethernetConstants d (Sample.mac x02)
               (Sample.bytesOf "lost") None 0 = Ok d')
    as (d' & Hs) by (eexists; vm_compute; reflexivity).
  destruct (@sendPacket_effects ethernetConstants _ _ _ _ _ _ Hs)
    as (_ & _ & _ & _ & [((msg & Hlog) & Hpool & _)|(Hlog & Hpool & _ & _ & Hq)]).
  - exfalso. revert Hs Hpool. vm_compute. intros Hs. injection Hs as <-.
    discriminate.
  - exists d'. split; [exact Hs|].
    change (MacAddress.eqb (Sample.mac x02) (DpdkDriver.localMac d))
      with false in Hq.
    destruct Hq as [_ Hq].
    rewrite decide_False in Hq by (vm_compute; lia).
    auto.
Defined.

Lemma create_initial_state_witness :
  DpdkDriver.packetBufsUtilized (Sample.idle (Sample.mac x01)) = 0 /\
  @DpdkDriver.queuesOk ethernetConstants (Sample.idle (Sample.mac x01)).
Proof.
  destruct (@create_initial_state ethernetConstants None
              (Sample.environment (Sample.mac x01))
              (Sample.idle (Sample.mac x01)))
    as (_ & Hc & _ & _ & _ & _ & _ & _ & _ & Hq & _).
  - vm_compute. reflexivity.
  - split; [exact Hc | exact Hq].
Defined.

(** A locator with the all-zero MAC address and port 0. *)
Lemma create_reads_locator_witness :
  exists d,
    @DpdkDriver.create ethernetConstants
      (Some (Sample.locator "basic+dpdk:mac=00:00:00:00:00:00,devport=0"
               [("mac", "00:00:00:00:00:00"); ("devport", "0")]))
      (Sample.environment (Sample.mac x07)) = Ok d /\
    DpdkDriver.localMac d = Sample.mac x07 /\
    DpdkDriver.portId d = 0.
Proof.
  assert (exists d,
             @DpdkDriver.create ethernetConstants
               (Some (Sample.locator "basic+dpdk:mac=00:00:00:00:00:00,devport=0"
                        [("mac", "00:00:00:00:00:00"); ("devport", "0")]))
               (Sample.environment (Sample.mac x07)) = Ok d)
    as (d & Hd) by (eexists; vm_compute; reflexivity).
  destruct (@create_reads_locator ethernetConstants _ _ _ Hd) as [Hmac Hport].
  change (ServiceLocator.options _ !! "mac")
    with (Some "00:00:00:00:00:00"%string) in Hmac.
  change (ServiceLocator.options _ !! "devport")
    with (Some "0"%string) in Hport.
  destruct Hmac as (m & Hm & Hrule).
  change (MacAddress.parse "00:00:00:00:00:00")
    with (Some (MacAddress.mk x00 x00 x00 x00 x00 x00)) in Hm.
  injection Hm as <-.
  change (MacAddress.isNull (MacAddress.mk x00 x00 x00 x00 x00 x00))
    with true in Hrule.
  destruct Hrule as [Hlocal _]. destruct Hport as [Hp _].
  change (ServiceLocator.parseInt "0") with (Some 0) in Hp.
  exists d. split; [exact Hd|]. split; [exact Hlocal|]. by injection Hp as <-.
Defined.

(** A bandwidth that is not a number. *)
Lemma create_exception_kinds_witness :
  exists e,
    @DpdkDriver.create ethernetConstants
      (Some (Sample.locator "basic+dpdk:gbs=fast" [("gbs", "fast")]))
      (Sample.environment (Sample.mac x01)) = Throw e /\
    kindOf e <> MissingOption.
Proof.
  exists (BadValueException "gbs").
  assert (@DpdkDriver.create ethernetConstants
            (Some (Sample.locator "basic+dpdk:gbs=fast" [("gbs", "fast")]))
            (Sample.environment (Sample.mac x01))
          = Throw (BadValueException "gbs")) as Ht
    by (vm_compute; reflexivity).
  split; [exact Ht|].
  exact (proj2 (@create_exception_kinds ethernetConstants _ _ _ Ht)).
Defined.

Lemma create_without_options_witness :
  @DpdkDriver.create ethernetConstants
    (Some (Sample.locator "basic+dpdk:" []))
    (Sample.environment (Sample.mac x01))
  = Ok (Sample.idle (Sample.mac x01)).
Proof.
  rewrite (@create_without_options ethernetConstants).
  - vm_compute. reflexivity.
  - reflexivity.
  - reflexivity.
  - reflexivity.
Defined.

(** Two packets go to the driver itself, are received, and one of the two
    buffers is given back. *)
Lemma driver_invariants_witness :
  exists d' out',
    @DpdkDriver.run ethernetConstants Sample.this
      [DpdkDriver.SendPacket (Sample.mac x01) (Sample.bytesOf "a") None 0;
       DpdkDriver.SendPacket (Sample.mac x01) (Sample.bytesOf "b") None 1;
       DpdkDriver.ReceivePackets 2; DpdkDriver.Release 1%N]
      (Sample.idle (Sample.mac x01), []) = Ok (d', out') /\
    DpdkDriver.localMac d' = Sample.mac x01 /\
    DpdkDriver.packetBufsUtilized d' = 1.
Proof.
  assert (exists d' r1 r2,
             @DpdkDriver.run ethernetConstants Sample.this
               [DpdkDriver.SendPacket (Sample.mac x01) (Sample.bytesOf "a") None 0;
                DpdkDriver.SendPacket (Sample.mac x01) (Sample.bytesOf "b") None 1;
                DpdkDriver.ReceivePackets 2; DpdkDriver.Release 1%N]
               (Sample.idle (Sample.mac x01), []) = Ok (d', [r1; r2]))
    as (d' & r1 & r2 & Hrun) by (eexists _, _, _; vm_compute; reflexivity).
  destruct (@driver_invariants ethernetConstants None
              (Sample.environment (Sample.mac x01)) _ _ _ _ _
              ltac:(vm_compute; reflexivity) Hrun)
    as ((Hmac & _) & _ & _ & Hcnt).
  exists d', [r1; r2]. split; [exact Hrun|]. split; [exact Hmac|].
  rewrite Hcnt. reflexivity.
Defined.

(** One packet is received and never released. *)
Lemma destroy_reports_leaks_witness :
  exists d' out',
    @DpdkDriver.run ethernetConstants Sample.this
      [DpdkDriver.Arrival (Sample.frame (Sample.mac x01) (Sample.mac x02) "kept");
       DpdkDriver.ReceivePackets 1]
      (Sample.idle (Sample.mac x01), []) = Ok (d', out') /\
    DpdkDriver.log (DpdkDriver.destroy d') <> DpdkDriver.log d'.
Proof.
  assert (exists d' r,
             @DpdkDriver.run ethernetConstants Sample.this
               [DpdkDriver.Arrival
                  (Sample.frame (Sample.mac x01) (Sample.mac x02) "kept");
                DpdkDriver.ReceivePackets 1]
               (Sample.idle (Sample.mac x01), []) = Ok (d', [r]))
    as (d' & r & Hrun) by (eexists _, _; vm_compute; reflexivity).
  destruct (@destroy_reports_leaks ethernetConstants None
              (Sample.environment (Sample.mac x01)) _ _ _ _ _
              ltac:(vm_compute; reflexivity) Hrun)
    as [_ Hleak].
  exists d', [r]. split; [exact Hrun|]. apply Hleak. vm_compute. reflexivity.
Defined.


(** Ten bytes sent at time 5 lower the space reported for time 5 by ten. *)
Lemma sendPacket_charges_queue_space_witness :
  let d := Sample.idle (Sample.mac x01) in
  exists d',
    @DpdkDriver.sendPacket ethernetConstants d (Sample.mac x02)
      (Sample.bytesOf "h:") (Some [Sample.bytesOf "response"]) 5 = Ok d' /\
    (DpdkDriver.getTransmitQueueSpace d' 5).2 = 2962.
Proof.
  intros d.
  assert (exists d',
             @DpdkDriver.sendPacket ethernetConstants d (Sample.mac x02)
               (Sample.bytesOf "h:") (Some [Sample.bytesOf "response"]) 5
             = Ok d' /\ DpdkDriver.log d' = DpdkDriver.log d)
    as (d' & Hs & Hlog) by (eexists; split; vm_compute; reflexivity).
  exists d'. split; [exact Hs|].
  rewrite (@sendPacket_charges_queue_space ethernetConstants _ _ _ _ _ _
             Hs Hlog).
  - vm_compute. reflexivity.
  - vm_compute. discriminate.
  - vm_compute. reflexivity.
Defined.
